(** * Route sequencing and metrics: a shallow embedding of the planner

    The development follows the TypeScript sources:
    - [types.ts]            the data model ([Coordinate], [DeliveryStop]);
    - [utils/optimizer.ts]  [calculateDistance] and [optimizeRoute];
    - [services/geminiService.ts]  [analyzeRoute];
    - [App.tsx]             [routeStats] and [runOptimization].

    JavaScript numbers are IEEE 754 binary64 values; they are modelled by
    Rocq's primitive floats, so that every definition below evaluates
    exactly as the program does. The first part holds the definitions, the
    second part what is proved of them. *)

From Stdlib Require Import ZArith Floats Ascii String.
From stdpp Require Import base option list strings gmap.

Local Open Scope float_scope.

(** * Definitions *)

(** ** Data model ([types.ts]) *)

Record Coordinate := { lat : float; lng : float }.

Inductive TrafficCondition := light | moderate | heavy.

Inductive Priority := low | medium | high.

Record DeliveryStop := {
  id : string;
  address : string;
  customerName : string;
  priority : Priority;
  coords : Coordinate;
  estimatedTime : option string;
  trafficCondition : option TrafficCondition
}.

(** ** The optimizer ([utils/optimizer.ts]) *)

Module Optimizer.

(** [Math.sqrt (dx * dx + dy * dy)] over the raw latitude and longitude
    differences. *)
Definition calculateDistance (p1 p2 : Coordinate) : float :=
  let dy := lat p1 - lat p2 in
  let dx := lng p1 - lng p2 in
  sqrt (dx * dx + dy * dy).

(** The conditional expression of the inner loop:
    [p === 'high' ? 0.7 : p === 'medium' ? 0.9 : 1.0]. The two inexact
    literals are written in hexadecimal: they are the doubles nearest to
    0.7 and 0.9. *)
Definition priorityWeight (p : Priority) : float :=
  match p with
  | high => 0x1.6666666666666p-1
  | medium => 0x1.ccccccccccccdp-1
  | low => 1
  end.

(** The [for (let i = 1; i < unvisited.length; i++)] loop. [rest] is the
    part of [unvisited] from index [i] on; the loop state is
    [(minDistance, nearestIndex)]. *)
Fixpoint for_loop (currentPos : Coordinate) (rest : list DeliveryStop)
    (i : nat) (minDistance : float) (nearestIndex : nat) : float * nat :=
  match rest with
  | [] => (minDistance, nearestIndex)
  | stop :: rest' =>
      let dist := calculateDistance currentPos (coords stop) in
      let weightedDist := dist * priorityWeight (priority stop) in
      if weightedDist <? minDistance
      then for_loop currentPos rest' (S i) weightedDist i
      else for_loop currentPos rest' (S i) minDistance nearestIndex
  end.

(** One pass of the body of the [while] loop up to the [splice]: the index
    chosen in a non-empty pool. [minDistance] starts as the plain distance
    to [unvisited[0]]. *)
Definition nearestIndex (currentPos : Coordinate) (first : DeliveryStop)
    (rest : list DeliveryStop) : nat :=
  snd (for_loop currentPos rest 1 (calculateDistance currentPos (coords first)) 0).

(** [arr.splice(i, 1)]: the array without the element at index [i]. *)
Definition splice1 {A} (i : nat) (arr : list A) : list A :=
  take i arr ++ drop (S i) arr.

(** The [while (unvisited.length > 0)] loop. Each iteration removes one
    element, so [fuel] bounds the number of iterations; [None] stands for a
    run that does not return a route: fuel exhausted, or the [TypeError] of
    reading [.coords] of an [undefined] spliced element. *)
Fixpoint while_loop (fuel : nat) (currentPos : Coordinate)
    (unvisited route : list DeliveryStop) : option (list DeliveryStop) :=
  match unvisited with
  | [] => Some route
  | first :: rest =>
      match fuel with
      | O => None
      | S fuel' =>
          let i := nearestIndex currentPos first rest in
          match unvisited !! i with
          | Some nextStop =>
              while_loop fuel' (coords nextStop) (splice1 i unvisited)
                         (route ++ [nextStop])
          | None => None
          end
      end
  end.

Definition optimizeRoute (start : Coordinate) (stops : list DeliveryStop)
    : option (list DeliveryStop) :=
  if decide (length stops = 0%nat) then Some []
  else while_loop (length stops) start stops [].

End Optimizer.

(** ** The built-in operations of the language that the program uses

    Strings are sequences of one-byte characters: the program only inspects
    them for the ASCII characters [' '], [':'], digits and the words [AM]
    and [PM]. White space outside ASCII is not modelled. *)

Module JS.

(** [s.split(c)] for a one-character separator [c]: the pieces of [s]
    between the occurrences of [c]. The array it returns is never empty; it
    is given as its first element and the list of the others. *)
Fixpoint split (sep : ascii) (s : string) : string * list string :=
  match s with
  | EmptyString => (EmptyString, [])
  | String c s' =>
      let '(piece, pieces) := split sep s' in
      if bool_decide (c = sep) then (EmptyString, piece :: pieces)
      else (String c piece, pieces)
  end.

(** The double nearest to the rational [n / d] (ties to even); [neg] is the
    sign, kept on a zero result. *)
Definition round_ratio (neg : bool) (n : N) (d : positive) : float :=
  match n with
  | N0 => if neg then PrimFloat.neg_zero else PrimFloat.zero
  | Npos p => SF2Prim (SF64div (S754_finite neg p 0) (S754_finite false d 0))
  end.

(** The double nearest to [m * 10 ^ e]. *)
Definition round_decimal (neg : bool) (m : N) (e : Z) : float :=
  match e with
  | Zneg k => round_ratio neg m (10 ^ k)
  | _ => round_ratio neg (m * 10 ^ Z.to_N e) 1
  end.

(** The value of a digit of [base] (at most 16), letters in either case. *)
Definition digit_value (base : N) (c : ascii) : option N :=
  let n := N_of_ascii c in
  let v := if (48 <=? n)%N && (n <=? 57)%N then Some (n - 48)%N
           else if (97 <=? n)%N && (n <=? 102)%N then Some (n - 87)%N
           else if (65 <=? n)%N && (n <=? 70)%N then Some (n - 55)%N
           else None in
  v ≫= λ d, if (d <? base)%N then Some d else None.

(** Reads the longest prefix of digits in [base]: their number, their value
    continuing [acc], and the rest of the string. *)
Fixpoint read_digits (base : N) (s : string) (count : nat) (acc : N)
    : nat * N * string :=
  match s with
  | EmptyString => (count, acc, s)
  | String c s' =>
      match digit_value base c with
      | Some d => read_digits base s' (S count) (acc * base + d)%N
      | None => (count, acc, s)
      end
  end.

(** Tab, line feed, vertical tab, form feed, carriage return and space. *)
Definition is_whitespace (c : ascii) : bool :=
  let n := N_of_ascii c in ((9 <=? n)%N && (n <=? 13)%N) || (n =? 32)%N.

Fixpoint trim_start (s : string) : string :=
  match s with
  | String c s' => if is_whitespace c then trim_start s' else s
  | EmptyString => s
  end.

Fixpoint trim_end (s : string) : string :=
  match s with
  | String c s' =>
      match trim_end s' with
      | EmptyString => if is_whitespace c then EmptyString else String c EmptyString
      | t => String c t
      end
  | EmptyString => s
  end.

(** [ExponentPart] of a decimal literal, or nothing; the whole of [s] must
    be consumed. *)
Definition read_exponent (s : string) : option Z :=
  match s with
  | EmptyString => Some 0%Z
  | String c s' =>
      if bool_decide (c = "e"%char) || bool_decide (c = "E"%char) then
        let '(neg, s'') :=
          match s' with
          | String "-" t => (true, t)
          | String "+" t => (false, t)
          | _ => (false, s')
          end in
        match read_digits 10 s'' 0 0 with
        | (S _, e, EmptyString) => Some (if neg then (- Z.of_N e)%Z else Z.of_N e)
        | _ => None
        end
      else None
  end.

(** [StrUnsignedDecimalLiteral] *)
Definition unsigned_decimal (neg : bool) (s : string) : float :=
  if bool_decide (s = "Infinity") then (if neg then neg_infinity else infinity)
  else
    let '(ni, int_part, s1) := read_digits 10 s 0 0 in
    let '(nf, mant, s2) :=
      match s1 with
      | String "." t => read_digits 10 t 0 int_part
      | _ => (0%nat, int_part, s1)
      end in
    let dotted := match s1 with String "." _ => true | _ => false end in
    if bool_decide (ni = 0%nat) && (negb dotted || bool_decide (nf = 0%nat)) then nan
    else match read_exponent s2 with
         | Some e => round_decimal neg mant (e - Z.of_nat nf)
         | None => nan
         end.

(** [NonDecimalIntegerLiteral]: [0x], [0o] and [0b] prefixes, unsigned. *)
Definition non_decimal (s : string) : option float :=
  match s with
  | String "0" (String c t) =>
      let base : option N :=
        if bool_decide (c = "x"%char) || bool_decide (c = "X"%char) then Some 16%N
        else if bool_decide (c = "o"%char) || bool_decide (c = "O"%char) then Some 8%N
        else if bool_decide (c = "b"%char) || bool_decide (c = "B"%char) then Some 2%N
        else None in
      base ≫= λ b,
        Some match read_digits b t 0 0 with
             | (S _, v, EmptyString) => round_ratio false v 1
             | _ => nan
             end
  | _ => None
  end.

(** [Number(s)], the abstract operation StringToNumber. *)
Definition Number (s : string) : float :=
  let t := trim_end (trim_start s) in
  match t with
  | EmptyString => PrimFloat.zero
  | String "-" u => unsigned_decimal true u
  | String "+" u => unsigned_decimal false u
  | _ => match non_decimal t with
         | Some v => v
         | None => unsigned_decimal false t
         end
  end.

(** [Math.floor]. A finite non-zero double is [m * 2 ^ e] for integers [m]
    and [e]; the floor of a double is a double, so the conversion back is
    exact. *)
Definition floor (x : float) : float :=
  match Prim2SF x with
  | S754_finite s m e =>
      if (0 <=? e)%Z then x
      else
        let q := (Z.pos m / 2 ^ (- e))%Z in
        let exact := (Z.pos m mod 2 ^ (- e) =? 0)%Z in
        let n := if s then (if exact then - q else - q - 1)%Z else q in
        SF2Prim (binary_normalize prec emax n 0 false)
  | _ => x
  end.

(** The remainder operator [x % y] on numbers: the result has the sign of
    the dividend and is computed without rounding. *)
Definition rem (x y : float) : float :=
  match Prim2SF x, Prim2SF y with
  | S754_nan, _ | _, S754_nan => nan
  | S754_infinity _, _ => nan
  | _, S754_zero _ => nan
  | S754_zero _, _ => x
  | _, S754_infinity _ => x
  | S754_finite sx mx ex, S754_finite _ my ey =>
      let e := Z.min ex ey in
      let r := ((Z.pos mx * 2 ^ (ex - e)) mod (Z.pos my * 2 ^ (ey - e)))%Z in
      SF2Prim (binary_normalize prec emax (if sx then - r else r)%Z e sx)
  end.

(** Decimal digits of a natural number, most significant first. *)
Fixpoint digits_fuel (fuel : nat) (n : N) (acc : string) : string :=
  match fuel with
  | O => acc
  | S fuel' =>
      let acc' := String (ascii_of_N (48 + n mod 10)) acc in
      if (n <? 10)%N then acc' else digits_fuel fuel' (n / 10) acc'
  end.

Definition digits (n : N) : string :=
  digits_fuel (S (N.to_nat (N.log2 n))) n EmptyString.

Fixpoint zeros (n : nat) : string :=
  match n with O => EmptyString | S n' => String "0" (zeros n') end.

(** The decimal exponent of the positive rational [num / den]: the [n] with
    [10 ^ (n - 1) <= num / den < 10 ^ n]; [n0] is a lower bound of it, at
    most [fuel] below. *)
Fixpoint decimal_exponent (fuel : nat) (num den : positive) (n0 : Z) : Z :=
  match fuel with
  | O => n0
  | S fuel' =>
      let below := match n0 with
                   | Zneg k => (Z.pos num * 10 ^ Z.pos k <? Z.pos den)%Z
                   | _ => (Z.pos num <? Z.pos den * 10 ^ n0)%Z
                   end in
      if below then n0 else decimal_exponent fuel' num den (n0 + 1)
  end.

(** [num / den * 10 ^ p] as a fraction [a / b]: its integer part, and the
    remainder [a mod b] with the divisor [b]. *)
Definition scaled (num den : positive) (p : Z) : Z * Z * Z :=
  let '(a, b) := match p with
                 | Zneg k => (Z.pos num, Z.pos den * 10 ^ Z.pos k)%Z
                 | _ => (Z.pos num * 10 ^ p, Z.pos den)%Z
                 end in
  (a / b, a mod b, b)%Z.

(** The digits [s], their number [k] and the exponent [n] of
    Number::toString, step 5: [k] as small as possible such that
    [s * 10 ^ (n - k)] reads back as [x]; of two such [s], the one nearer
    to [x]. *)
Fixpoint shortest (fuel : nat) (x : float) (num den : positive) (n : Z)
    (k : Z) : Z * Z * Z :=
  let '(lo, r, b) := scaled num den (k - n) in
  let hi := (lo + 1)%Z in
  let back s := Leibniz.eqb (round_decimal false (Z.to_N s) (n - k)) x in
  let pick_hi := if (hi =? 10 ^ k)%Z then (10 ^ (k - 1), k, n + 1)%Z
                 else (hi, k, n) in
  match fuel with
  | O => (lo, k, n)
  | S fuel' =>
      match back lo, back hi with
      | true, true =>
          match (2 * r ?= b)%Z with
          | Lt => (lo, k, n)
          | Gt => pick_hi
          | Eq => if Z.even lo then (lo, k, n) else pick_hi
          end
      | true, false => (lo, k, n)
      | false, true => pick_hi
      | false, false => shortest fuel' x num den n (k + 1)
      end
  end.

Definition exponent_string (e : Z) : string :=
  String "e" (String (if (e <? 0)%Z then "-" else "+")%char (digits (Z.abs_N e))).

(** Number::toString, radix 10. *)
Definition toString (x : float) : string :=
  match Prim2SF x with
  | S754_nan => "NaN"
  | S754_zero _ => "0"
  | S754_infinity s => if s then "-Infinity" else "Infinity"
  | S754_finite sg m e =>
      let '(num, den) := match e with
                         | Zneg p => (m, 2 ^ p)%positive
                         | Zpos p => (m * 2 ^ p, 1)%positive
                         | Z0 => (m, 1%positive)
                         end in
      let n0 := decimal_exponent 700 num den (-330) in
      let '(s, k, n) := shortest 17 (abs x) num den n0 1 in
      let ds := digits (Z.to_N s) in
      let body :=
        if (k <=? n)%Z && (n <=? 21)%Z then ds +:+ zeros (Z.to_nat (n - k))
        else if (0 <? n)%Z && (n <=? 21)%Z then
          substring 0 (Z.to_nat n) ds +:+ "." +:+ substring (Z.to_nat n) (Z.to_nat (k - n)) ds
        else if (-6 <? n)%Z && (n <=? 0)%Z then
          "0." +:+ zeros (Z.to_nat (- n)) +:+ ds
        else if (k =? 1)%Z then ds +:+ exponent_string (n - 1)
        else substring 0 1 ds +:+ "." +:+ substring 1 (Z.to_nat (k - 1)) ds
             +:+ exponent_string (n - 1) in
      if sg then String "-" body else body
  end.

End JS.

(** ** The optimizer on arrays in a store

    [optimizeRoute] receives a reference to the caller's array. Arrays live
    in a store indexed by references; [[...stops]] and [[]] allocate,
    [splice] and [push] update the array they are called on. *)

Module OptimizerRef.

Abbreviation store := (gmap nat (list DeliveryStop)).

Definition alloc (arr : list DeliveryStop) (h : store) : nat * store :=
  let r := fresh (dom h) in (r, <[r := arr]> h).

Fixpoint while_loop (fuel : nat) (currentPos : Coordinate)
    (unvisited route : nat) (h : store) : option store :=
  match h !! unvisited with
  | None => None
  | Some [] => Some h
  | Some (first :: rest) =>
      match fuel with
      | O => None
      | S fuel' =>
          let i := Optimizer.nearestIndex currentPos first rest in
          match (first :: rest) !! i with
          | Some nextStop =>
              let h1 := <[unvisited := Optimizer.splice1 i (first :: rest)]> h in
              match h1 !! route with
              | Some r =>
                  while_loop fuel' (coords nextStop) unvisited route
                             (<[route := r ++ [nextStop]]> h1)
              | None => None
              end
          | None => None
          end
      end
  end.

(** Returns the reference of the returned array and the store after the
    call. *)
Definition optimizeRoute (start : Coordinate) (stops : nat) (h : store)
    : option (nat * store) :=
  arr ← h !! stops;
  if bool_decide (length arr = 0%nat) then Some (alloc [] h)
  else
    let '(unvisited, h1) := alloc arr h in
    let '(route, h2) := alloc [] h1 in
    h3 ← while_loop (length arr) start unvisited route h2;
    Some (route, h3).

End OptimizerRef.

(** ** The estimator ([services/geminiService.ts]) *)

Module GeminiService.

Inductive Language := en | es | de.

(** An element of [etas]. *)
Module Eta.
Record t := { id : string; eta : string; traffic : TrafficCondition }.
End Eta.

Record AnalysisResult := { summary : string; etas : list Eta.t }.

(** What the remote call does: it rejects, or it answers with a text that
    [JSON.parse] reads ([Some]) or throws on ([None]). *)
Inductive Response :=
  | Rejected
  | Text (parsed : option AnalysisResult).

Definition defaultSummaries (lang : Language) : string :=
  match lang with
  | en => "Route analysis completed."
  | es => "AnÃ¡lisis de ruta completado."
  | de => "Routenanalyse abgeschlossen."
  end.

(** [`~${10 + Math.floor(i/2)}:${(i%2)*30 || '00'} AM`] and the traffic of
    the stop at index [i]. *)
Definition fallbackEta (i : nat) (s : DeliveryStop) : Eta.t :=
  {| Eta.id := id s;
     Eta.eta := "~" +:+ JS.digits (N.of_nat (10 + i / 2)) +:+ ":"
                +:+ (if (i mod 2 =? 0)%nat then "00" else "30") +:+ " AM";
     Eta.traffic := if (i mod 3 =? 0)%nat then heavy
                    else if (i mod 2 =? 0)%nat then moderate else light |}.

(** The result the returned promise resolves to; [None] when it rejects. *)
Definition analyzeRoute (stops : list DeliveryStop) (lang : Language)
    (startTime : string) (response : Response) : option AnalysisResult :=
  match response with
  | Rejected => None
  | Text (Some result) => Some result
  | Text None =>
      Some {| summary := defaultSummaries lang; etas := imap fallbackEta stops |}
  end.

End GeminiService.

(** ** The application state and its operations ([App.tsx]) *)

Module App.

Import GeminiService.

Definition DEFAULT_DEPOT_START_TIME : string := "09:00 AM".

(** The fields of the local time that the program reads from a [Date]. *)
Record Date := { getHours : nat; getMinutes : nat }.

(** The [useState] cells that [routeStats] and [runOptimization] read or
    write. *)
Record State := {
  stops : list DeliveryStop;
  aiSummary : option string;
  lastUpdated : option Date;
  useSystemTime : bool;
  depotLocation : Coordinate;
  lang : Language;
  selectedStopId : option string;
  isOptimizing : bool
}.

Definition setStops (v : list DeliveryStop) (st : State) : State :=
  {| stops := v; aiSummary := aiSummary st; lastUpdated := lastUpdated st;
     useSystemTime := useSystemTime st; depotLocation := depotLocation st;
     lang := lang st; selectedStopId := selectedStopId st;
     isOptimizing := isOptimizing st |}.

Definition setAiSummary (v : option string) (st : State) : State :=
  {| stops := stops st; aiSummary := v; lastUpdated := lastUpdated st;
     useSystemTime := useSystemTime st; depotLocation := depotLocation st;
     lang := lang st; selectedStopId := selectedStopId st;
     isOptimizing := isOptimizing st |}.

Definition setLastUpdated (v : option Date) (st : State) : State :=
  {| stops := stops st; aiSummary := aiSummary st; lastUpdated := v;
     useSystemTime := useSystemTime st; depotLocation := depotLocation st;
     lang := lang st; selectedStopId := selectedStopId st;
     isOptimizing := isOptimizing st |}.

Definition setSelectedStopId (v : option string) (st : State) : State :=
  {| stops := stops st; aiSummary := aiSummary st; lastUpdated := lastUpdated st;
     useSystemTime := useSystemTime st; depotLocation := depotLocation st;
     lang := lang st; selectedStopId := v;
     isOptimizing := isOptimizing st |}.

Definition setIsOptimizing (v : bool) (st : State) : State :=
  {| stops := stops st; aiSummary := aiSummary st; lastUpdated := lastUpdated st;
     useSystemTime := useSystemTime st; depotLocation := depotLocation st;
     lang := lang st; selectedStopId := selectedStopId st;
     isOptimizing := v |}.

(** [String.prototype.padStart(2, '0')] *)
Definition padStart2 (s : string) : string :=
  match String.length s with
  | 0%nat => "00"
  | 1%nat => "0" +:+ s
  | _ => s
  end.

Definition getCurrentTimeFormatted (now : Date) : string :=
  let hours := getHours now in
  let minutes := padStart2 (JS.digits (N.of_nat (getMinutes now))) in
  let ampm := if (12 <=? hours)%nat then "PM" else "AM" in
  let hours := (hours mod 12)%nat in
  let hours := if (hours =? 0)%nat then 12%nat else hours in
  JS.digits (N.of_nat hours) +:+ ":" +:+ minutes +:+ " " +:+ ampm.

(** *** [routeStats] *)

(** The local function of [routeStats]. A missing array element is
    [undefined]: [modifier] then equals neither ['PM'] nor ['AM'], and
    [minutes] makes the sum [NaN]. *)
Definition parseTime (timeStr : string) : float :=
  let '(time, rest) := JS.split " " timeStr in
  let modifier := head rest in
  let '(h, ms) := JS.split ":" time in
  let hours := JS.Number h in
  let minutes := JS.Number <$> head ms in
  let hours :=
    if bool_decide (modifier = Some "PM") && (hours <? 12) then hours + 12
    else hours in
  let hours :=
    if bool_decide (modifier = Some "AM") && (hours =? 12) then 0
    else hours in
  match minutes with
  | Some minutes => hours * 60 + minutes
  | None => nan
  end.

Record RouteStats := { distance : float; duration : string }.

(** The [forEach] of [routeStats]: the loop state is [(totalDist, current)]. *)
Definition totalDistance (depot : Coordinate) (sequence : list DeliveryStop) : float :=
  fst (fold_left
         (λ '(totalDist, current) stop,
            (totalDist + Optimizer.calculateDistance current (coords stop) * 111,
             coords stop))
         sequence (0, depot)).

(** The value of the memo for a state, at local time [now]. No operation
    inside the [try] block throws on strings, so its [catch] is never
    entered. *)
Definition routeStats (now : Date) (st : State) : RouteStats :=
  match stops st with
  | [] => {| distance := 0; duration := "0h 0m" |}
  | first :: rest =>
      let totalDist := totalDistance (depotLocation st) (stops st) in
      let lastStop := List.last rest first in
      match estimatedTime lastStop with
      | Some (String c t) =>
          let startTimeStr :=
            if useSystemTime st && bool_decide (is_Some (lastUpdated st))
            then getCurrentTimeFormatted now
            else DEFAULT_DEPOT_START_TIME in
          let startMinutes := parseTime startTimeStr in
          let endMinutes := parseTime (String c t) in
          let diff := endMinutes - startMinutes in
          let h := JS.floor (diff / 60) in
          let m := JS.rem diff 60 in
          {| distance := totalDist;
             duration := JS.toString h +:+ "h " +:+ JS.toString m +:+ "m" |}
      | _ => {| distance := totalDist; duration := "..." |}
      end
  end.

(** *** [runOptimization] *)

(** The arrow function mapped over [orderedStops]: the object spread copies
    the stop and the two fields are then assigned from the first entry of
    [etas] with the stop's [id], or [undefined] when there is none. *)
Definition withInsight (etas : list Eta.t) (stop : DeliveryStop) : DeliveryStop :=
  let insight := List.find (λ e, bool_decide (Eta.id e = id stop)) etas in
  {| id := id stop; address := address stop; customerName := customerName stop;
     priority := priority stop; coords := coords stop;
     estimatedTime := Eta.eta <$> insight;
     trafficCondition := Eta.traffic <$> insight |}.

Definition stopsWithInsights (etas : list Eta.t) (orderedStops : list DeliveryStop)
    : list DeliveryStop :=
  withInsight etas <$> orderedStops.

(** [runOptimization] has one suspension point, the [await]. What the
    function holds while suspended: *)
Record Pending := {
  orderedStops : list DeliveryStop;
  requestLang : Language;
  startTime : string
}.

(** How the synchronous part of a call ends: at the early [return], at the
    [await], or by an exception of [optimizeRoute] ahead of the [try]. *)
Inductive Started :=
  | Returned (st : State)
  | Awaiting (st : State) (p : Pending)
  | Threw.

(** From the call to the [await]. [manualStops || stops] takes the argument
    whenever one is passed: an array, even empty, is truthy. *)
Definition runOptimization_start (now : Date)
    (manualStops : option (list DeliveryStop)) (manualDepot : option Coordinate)
    (st : State) : Started :=
  let targetStops := default (stops st) manualStops in
  let targetDepot := default (depotLocation st) manualDepot in
  if bool_decide (length targetStops = 0%nat) then Returned st
  else
    let st := setIsOptimizing true st in
    let st := if manualStops is None then setSelectedStopId None st else st in
    let ordered :=
      match manualStops with
      | Some manual => Some manual
      | None => Optimizer.optimizeRoute targetDepot targetStops
      end in
    match ordered with
    | Some orderedStops =>
        Awaiting st
          {| orderedStops := orderedStops;
             requestLang := lang st;
             startTime := if useSystemTime st then getCurrentTimeFormatted now
                          else DEFAULT_DEPOT_START_TIME |}
    | None => Threw
    end.

(** From the [await] to the end: [outcome] is what the awaited promise
    settled to ([None]: it rejected), [st] the state at that moment. *)
Definition runOptimization_resume (now : Date) (p : Pending)
    (outcome : option AnalysisResult) (st : State) : State :=
  let st :=
    match outcome with
    | Some result =>
        let st := setStops (stopsWithInsights (etas result) (orderedStops p)) st in
        let st := setAiSummary (Some (summary result)) st in
        setLastUpdated (Some now) st
    | None => setStops (orderedStops p) st
    end in
  setIsOptimizing false st.

(** One invocation that nothing interleaves with. *)
Definition runOptimization (now : Date)
    (manualStops : option (list DeliveryStop)) (manualDepot : option Coordinate)
    (response : Response) (st : State) : option State :=
  match runOptimization_start now manualStops manualDepot st with
  | Returned st' => Some st'
  | Awaiting st' p =>
      Some (runOptimization_resume now p
              (analyzeRoute (orderedStops p) (requestLang p) (startTime p) response)
              st')
  | Threw => None
  end.

End App.

(** ** The selection rule of the sequencer in the words of the specification

    Every stop of the pool, the first one included, is scored by its weighted
    distance; the first stop of minimal score is selected. *)

Module SequencerSpec.

Import Optimizer.

Definition weighted_distance (pos : Coordinate) (stop : DeliveryStop) : float :=
  calculateDistance pos (coords stop) * priorityWeight (priority stop).

Fixpoint first_minimum (pos : Coordinate) (pool : list DeliveryStop) (i : nat)
    (best : float) (bestIndex : nat) : nat :=
  match pool with
  | [] => bestIndex
  | stop :: pool' =>
      if weighted_distance pos stop <? best
      then first_minimum pos pool' (S i) (weighted_distance pos stop) i
      else first_minimum pos pool' (S i) best bestIndex
  end.

Definition select (pos : Coordinate) (pool : list DeliveryStop) : option nat :=
  match pool with
  | [] => None
  | first :: rest =>
      Some (first_minimum pos rest 1 (weighted_distance pos first) 0)
  end.

End SequencerSpec.

(** Two stops that differ at most in their two annotation fields. *)
Definition sameStop (s s' : DeliveryStop) : Prop :=
  id s = id s' /\ address s = address s' /\ customerName s = customerName s'
  /\ priority s = priority s' /\ coords s = coords s'.

(** ** Sample data *)

Module Sample.

Import App GeminiService.

Definition origin : Coordinate := {| lat := 0; lng := 0 |}.

Definition noon : Date := {| getHours := 12; getMinutes := 0 |}.

Definition stopAt (name : string) (p : Priority) (la ln : float) : DeliveryStop :=
  {| id := name; address := ""; customerName := ""; priority := p;
     coords := {| lat := la; lng := ln |};
     estimatedTime := None; trafficCondition := None |}.

Definition annotated (stop : DeliveryStop) (time : string)
    (traffic : TrafficCondition) : DeliveryStop :=
  {| id := id stop; address := address stop; customerName := customerName stop;
     priority := priority stop; coords := coords stop;
     estimatedTime := Some time; trafficCondition := Some traffic |}.

Definition state (l : list DeliveryStop) (text : option string) : State :=
  {| stops := l; aiSummary := text; lastUpdated := None; useSystemTime := false;
     depotLocation := origin; lang := en; selectedStopId := None;
     isOptimizing := false |}.

End Sample.

(** ** The score of a selection

    The number under which the loop of [optimizeRoute] selects the stop at
    index [i] of the pool [first :: rest]: the plain distance for the head of
    the pool, the weighted distance for the others. *)
Definition selectionScore (pos : Coordinate) (first : DeliveryStop)
    (rest : list DeliveryStop) (i : nat) : option float :=
  match i with
  | O => Some (Optimizer.calculateDistance pos (coords first))
  | S j => SequencerSpec.weighted_distance pos <$> rest !! j
  end.

(** The numbers that are not below zero: [NaN], [+Infinity], the zeros and
    the positive finite numbers. *)
Definition not_negative (x : spec_float) : Prop :=
  match x with
  | S754_infinity true | S754_finite true _ _ => False
  | _ => True
  end.

(** ** Clock times and durations as integers

    What [parseTime] and the duration text of [routeStats] are compared
    with. *)

Module Clock.

Import App.

(** The number whose value is the integer [z]. *)
Definition number (z : Z) : float := SF2Prim (binary_normalize prec emax z 0 false).

(** The same number through the primitive conversion from 63-bit integers,
    for [z] of small magnitude; the exhaustive checks compute with it. *)
Definition quickNumber (z : Z) : float :=
  match z with
  | Z0 => 0
  | Zpos p => of_uint63 (Uint63Axioms.of_Z z)
  | Zneg p => - of_uint63 (Uint63Axioms.of_Z (Zpos p))
  end.

(** A [Date] whose fields are in the ranges that [getHours] and
    [getMinutes] return. *)
Definition valid (d : Date) : Prop := (getHours d < 24)%nat /\ (getMinutes d < 60)%nat.

(** Minutes since midnight. *)
Definition minutes (d : Date) : Z := 60 * Z.of_nat (getHours d) + Z.of_nat (getMinutes d).

(** The time of [d] on the 12-hour clock with a two-digit hour, as in
    ["09:45 AM"]; [getCurrentTimeFormatted] writes the hour without a
    leading zero. *)
Definition padded (d : Date) : string :=
  let hours := (getHours d mod 12)%nat in
  let hours := if (hours =? 0)%nat then 12%nat else hours in
  padStart2 (JS.digits (N.of_nat hours)) +:+ ":"
    +:+ padStart2 (JS.digits (N.of_nat (getMinutes d))) +:+ " "
    +:+ (if (12 <=? getHours d)%nat then "PM" else "AM").

(** An integer in decimal, with a minus sign when it is negative. *)
Definition integer (z : Z) : string :=
  if (z <? 0)%Z then String "-" (JS.digits (Z.abs_N z)) else JS.digits (Z.abs_N z).

(** Hours rounded down and the remaining minutes, which keep the sign of the
    difference. *)
Definition durationText (diff : Z) : string :=
  integer (diff / 60) +:+ "h " +:+ integer (Z.rem diff 60) +:+ "m".

End Clock.

(** ** The legs drawn on the map ([components/RouteMap.tsx]) *)

Module RouteMap.

Import Optimizer.

(** The distance helper of the component, in kilometres. *)
Definition calculateDist (p1 p2 : Coordinate) : float :=
  let dy := lat p1 - lat p2 in
  let dx := lng p1 - lng p2 in
  sqrt (dx * dx + dy * dy) * 111.

Module Segment.
Record t := {
  start : Coordinate;
  end' : Coordinate;
  traffic : option TrafficCondition;
  targetId : string
}.
End Segment.

(** The object built for the leg from [from] to the stop [target]. *)
Definition segmentTo (from : Coordinate) (target : DeliveryStop) : Segment.t :=
  {| Segment.start := from; Segment.end' := coords target;
     Segment.traffic := trafficCondition target; Segment.targetId := id target |}.

(** The array [segments] of the drawing effect, built when [stops] is not
    empty: the leg from [baseLocation] to [stops[0]], then for every stop
    [s] at index [i] of [stops.slice(0, -1)] the leg from [s] to
    [stops[i+1]]. [None] stands for the [TypeError] of reading a field
    of an [undefined] [stops[i+1]]. *)
Definition segments (baseLocation : Coordinate) (stops : list DeliveryStop)
    : option (list Segment.t) :=
  match stops with
  | [] => Some []
  | first :: _ =>
      rest ← mapM (M:=option) Datatypes.id
               (imap (λ i s, segmentTo (coords s) <$> stops !! S i)
                     (take (length stops - 1) stops));
      Some (segmentTo baseLocation first :: rest)
  end.

(** The legs as a chain: each leg starts where the one before it ends. *)
Fixpoint chain (from : Coordinate) (stops : list DeliveryStop) : list Segment.t :=
  match stops with
  | [] => []
  | stop :: rest => segmentTo from stop :: chain (coords stop) rest
  end.

(** The sum of the distance labels of the legs, in the order they are
    drawn. *)
Definition labelled (segs : list Segment.t) : float :=
  fold_left (λ acc seg, acc + calculateDist (Segment.start seg) (Segment.end' seg))
            segs 0.

End RouteMap.

(** ** Event handlers of the application ([App.tsx]) *)

Module Handlers.

Import App GeminiService.

Inductive Tab := manifest | directory | routes.

Module SavedRoute.
Record t := {
  id : string;
  name : string;
  stops : list DeliveryStop;
  date : string;
  totalDistance : float
}.
End SavedRoute.

(** The state cells the handlers below use beside those of [App.State]. *)
Record Cells := {
  app : State;
  savedRoutes : list SavedRoute.t;
  newRouteName : string;
  isSaveModalOpen : bool;
  activeTab : Tab;
  draggedIndex : option nat
}.

Definition withApp (v : State) (c : Cells) : Cells :=
  {| app := v; savedRoutes := savedRoutes c; newRouteName := newRouteName c;
     isSaveModalOpen := isSaveModalOpen c; activeTab := activeTab c;
     draggedIndex := draggedIndex c |}.

Definition setSavedRoutes (v : list SavedRoute.t) (c : Cells) : Cells :=
  {| app := app c; savedRoutes := v; newRouteName := newRouteName c;
     isSaveModalOpen := isSaveModalOpen c; activeTab := activeTab c;
     draggedIndex := draggedIndex c |}.

Definition setNewRouteName (v : string) (c : Cells) : Cells :=
  {| app := app c; savedRoutes := savedRoutes c; newRouteName := v;
     isSaveModalOpen := isSaveModalOpen c; activeTab := activeTab c;
     draggedIndex := draggedIndex c |}.

Definition setIsSaveModalOpen (v : bool) (c : Cells) : Cells :=
  {| app := app c; savedRoutes := savedRoutes c; newRouteName := newRouteName c;
     isSaveModalOpen := v; activeTab := activeTab c;
     draggedIndex := draggedIndex c |}.


Definition setDraggedIndex (v : option nat) (c : Cells) : Cells :=
  {| app := app c; savedRoutes := savedRoutes c; newRouteName := newRouteName c;
     isSaveModalOpen := isSaveModalOpen c; activeTab := activeTab c;
     draggedIndex := v |}.

(** [String.prototype.trim] *)
Definition trim (s : string) : string := JS.trim_end (JS.trim_start s).

(** A call [runOptimization(manualStops)] made by a handler, up to the
    [await] of the invocation: the cells after it and what the invocation
    holds while it is suspended, if it got that far. [None]: the call
    threw. *)
Definition callRunOptimization (now : Date)
    (manualStops : option (list DeliveryStop)) (manualDepot : option Coordinate)
    (c : Cells) : option (Cells * option Pending) :=
  match runOptimization_start now manualStops manualDepot (app c) with
  | Returned st => Some (withApp st c, None)
  | Awaiting st p => Some (withApp st c, Some p)
  | Threw => None
  end.

(** [uuid] is what [crypto.randomUUID()] returns, [date] what
    [new Date().toLocaleDateString(...)] returns, and [now] the local time
    of the rendering whose [routeStats] the handler reads. *)
Definition handleSaveCurrentRoute (uuid date : string) (now : Date) (c : Cells)
    : Cells :=
  if bool_decide (trim (newRouteName c) = EmptyString)
     || bool_decide (length (stops (app c)) = 0%nat)
  then c
  else
    let newRoute :=
      {| SavedRoute.id := uuid;
         SavedRoute.name := trim (newRouteName c);
         SavedRoute.stops := stops (app c);
         SavedRoute.date := date;
         SavedRoute.totalDistance := distance (routeStats now (app c)) |} in
    let c := setSavedRoutes (newRoute :: savedRoutes c) c in
    let c := setNewRouteName EmptyString c in
    setIsSaveModalOpen false c.


(** [confirmed] is the answer to the [confirm] dialog. *)
Definition deleteSavedRoute (id : string) (confirmed : bool) (c : Cells) : Cells :=
  if confirmed
  then setSavedRoutes
         (List.filter (λ r, negb (bool_decide (SavedRoute.id r = id))) (savedRoutes c)) c
  else c.

(** [arr.splice(index, 0, item)]: [item] inserted before position [index],
    at the end when [index] is past it. *)
Definition spliceIn {A} (index : nat) (item : A) (arr : list A) : list A :=
  take index arr ++ item :: drop index arr.

(** With a [draggedIndex] past the end of the list, [movedItem] is
    [undefined] and an [undefined] element enters the stop list, which the
    type of stops cannot hold: [None]. *)
Definition handleDrop (index : nat) (now : Date) (c : Cells)
    : option (Cells * option Pending) :=
  match draggedIndex c with
  | None => Some (c, None)
  | Some dragged =>
      if bool_decide (dragged = index) then Some (c, None)
      else
        movedItem ← stops (app c) !! dragged;
        let updatedStops :=
          spliceIn index movedItem (Optimizer.splice1 dragged (stops (app c))) in
        let c := withApp (setStops updatedStops (app c)) c in
        let c := setDraggedIndex None c in
        callRunOptimization now (Some updatedStops) None c
  end.

End Handlers.

(** * Properties *)

(** ** Facts on binary64 numbers

    The comparison [<] of JavaScript numbers is a strict order (every
    comparison with [NaN] is [false]) and multiplying by the literal [1.0]
    is exact. Both follow from the specification of the primitive
    operations. *)

Module FloatFacts.

Lemma SFcompare_antisym x y :
  SFcompare y x = CompOpp <$> SFcompare x y.
Proof.
  destruct x as [sx|sx| |sx mx ex], y as [sy|sy| |sy my ey]; simpl;
    try reflexivity; try (destruct sx; reflexivity);
    try (destruct sy; reflexivity); try (destruct sx, sy; reflexivity).
  change (Pos.compare_cont Eq my mx) with (Pos.compare my mx).
  change (Pos.compare_cont Eq mx my) with (Pos.compare mx my).
  rewrite (Z.compare_antisym ex ey), (Pos.compare_antisym mx my).
  destruct sx, sy; simpl; try reflexivity;
    destruct (ex ?= ey)%Z; simpl; try reflexivity;
    destruct (mx ?= my)%positive; reflexivity.
Qed.

Lemma SFcompare_Lt_trans x y z :
  SFcompare x y = Some Lt -> SFcompare y z = Some Lt -> SFcompare x z = Some Lt.
Proof.
  destruct x as [sx|sx| |sx mx ex], y as [sy|sy| |sy my ey],
    z as [sz|sz| |sz mz ez]; simpl; try discriminate;
    try (destruct sx; discriminate); try (destruct sy; discriminate);
    try (destruct sz; discriminate);
    try (destruct sx, sy; discriminate); try (destruct sy, sz; discriminate);
    try (destruct sx, sy, sz; (discriminate || reflexivity)).
  change (Pos.compare_cont Eq mx my) with (Pos.compare mx my).
  change (Pos.compare_cont Eq my mz) with (Pos.compare my mz).
  change (Pos.compare_cont Eq mx mz) with (Pos.compare mx mz).
  destruct sx, sy, sz; try discriminate; try reflexivity;
    destruct (Z.compare_spec ex ey), (Z.compare_spec ey ez),
      (Z.compare_spec ex ez); try discriminate; try reflexivity; try lia;
    destruct (Pos.compare_spec mx my), (Pos.compare_spec my mz),
      (Pos.compare_spec mx mz); simpl; try discriminate; try reflexivity; lia.
Qed.

Lemma ltb_asym x y : (x <? y) = true -> (y <? x) = false.
Proof.
  rewrite !ltb_spec. unfold SFltb. rewrite (SFcompare_antisym (Prim2SF x) (Prim2SF y)).
  destruct (SFcompare (Prim2SF x) (Prim2SF y)) as [[]|]; simpl; congruence.
Qed.

Lemma ltb_trans x y z : (x <? y) = true -> (y <? z) = true -> (x <? z) = true.
Proof.
  rewrite !ltb_spec. unfold SFltb.
  destruct (SFcompare (Prim2SF x) (Prim2SF y)) as [[]|] eqn:Hxy; try discriminate.
  destruct (SFcompare (Prim2SF y) (Prim2SF z)) as [[]|] eqn:Hyz; try discriminate.
  intros _ _. now rewrite (SFcompare_Lt_trans _ _ _ Hxy Hyz).
Qed.

Lemma Prim2SF_one : Prim2SF 1 = S754_finite false 4503599627370496 (-52).
Proof. reflexivity. Qed.

Lemma digits2_pos_shl52 m :
  Z.pos (digits2_pos (Pos.iter xO m 52)) = (Z.pos (digits2_pos m) + 52)%Z.
Proof. cbv [Pos.iter]. cbn [digits2_pos]. lia. Qed.

Lemma shr_shl52 m :
  SpecFloat.iter_pos shr_1 52
    {| shr_m := Z.pos (Pos.iter xO m 52); shr_r := false; shr_s := false |}
  = {| shr_m := Z.pos m; shr_r := false; shr_s := false |}.
Proof. reflexivity. Qed.

Lemma mul_1_r x : x * 1 = x.
Proof.
  apply Prim2SF_inj. rewrite mul_spec, Prim2SF_one.
  pose proof (Prim2SF_valid x) as Hv.
  destruct (Prim2SF x) as [s|s| |s m e]; try (destruct s; reflexivity); [reflexivity|].
  cbn [FloatOps.prec valid_binary bounded canonical_mantissa] in Hv.
  apply andb_prop in Hv as [Hc He]. apply Z.eqb_eq in Hc.
  unfold SF64mul, SFmul. rewrite Pos.mul_comm.
  change (4503599627370496 * m)%positive with (Pos.iter xO m 52).
  unfold binary_round_aux, shr_fexp.
  cbn [Zdigits2]. rewrite digits2_pos_shl52.
  replace (Z.pos (digits2_pos m) + 52 + (e + -52))%Z
    with (Z.pos (digits2_pos m) + e)%Z by lia.
  rewrite Hc.
  replace (e - (e + -52))%Z with 52%Z by lia.
  cbn [shr shr_record_of_loc]. rewrite shr_shl52.
  cbn [loc_of_shr_record round_nearest_even shr_m Zdigits2].
  replace (e + -52 + 52)%Z with e by lia.
  rewrite Hc, Z.sub_diag. cbn [shr shr_m].
  rewrite He. now rewrite xorb_false_r.
Qed.
End FloatFacts.

(** ** The sequencer returns a permutation of its input *)

Section Sequencer.

Import Optimizer.

Implicit Types (pos start : Coordinate) (stop first : DeliveryStop).
Implicit Types (rest unvisited route stops : list DeliveryStop).

Lemma for_loop_index_bound pos rest i minDistance n :
  (n < i)%nat ->
  (snd (for_loop pos rest i minDistance n) < i + length rest)%nat.
Proof.
  revert i minDistance n.
  induction rest as [|stop rest IH]; intros i m n Hn; cbn [for_loop length].
  - simpl. lia.
  - destruct (_ <? _).
    + specialize (IH (S i) (calculateDistance pos (coords stop)
                              * priorityWeight (priority stop)) i). lia.
    + specialize (IH (S i) m n). lia.
Qed.

Lemma nearestIndex_in_range pos first rest :
  (nearestIndex pos first rest < length (first :: rest))%nat.
Proof.
  unfold nearestIndex.
  pose proof (for_loop_index_bound pos rest 1
                (calculateDistance pos (coords first)) 0) as H.
  cbn [length]. lia.
Qed.

Lemma splice1_delete {A} (i : nat) (arr : list A) : splice1 i arr = delete i arr.
Proof. unfold splice1. now rewrite delete_take_drop. Qed.

Lemma splice1_Permutation {A} (i : nat) (arr : list A) x :
  arr !! i = Some x -> arr ≡ₚ x :: splice1 i arr.
Proof. rewrite splice1_delete. apply delete_Permutation. Qed.

Lemma splice1_length {A} (i : nat) (arr : list A) x :
  arr !! i = Some x -> length arr = S (length (splice1 i arr)).
Proof. intros H. now rewrite (splice1_Permutation _ _ _ H) at 1. Qed.

(** With at least as much fuel as stops in the pool, the loop leaves through
    its exit test and has moved every stop of the pool to the route. *)
Lemma while_loop_Permutation fuel pos unvisited route :
  (length unvisited <= fuel)%nat ->
  exists r, while_loop fuel pos unvisited route = Some r
            /\ r ≡ₚ route ++ unvisited.
Proof.
  revert pos unvisited route.
  induction fuel as [|fuel IH]; intros pos unvisited route Hfuel.
  - destruct unvisited as [|first rest]; [|cbn [length] in Hfuel; lia].
    exists route. split; [reflexivity|]. now rewrite app_nil_r.
  - destruct unvisited as [|first rest].
    + exists route. split; [reflexivity|]. now rewrite app_nil_r.
    + cbn [while_loop].
      pose proof (nearestIndex_in_range pos first rest) as Hi.
      apply lookup_lt_is_Some_2 in Hi as [nextStop Hnext].
      rewrite Hnext.
      pose proof (splice1_length _ _ _ Hnext) as Hlen.
      destruct (IH (coords nextStop)
                  (splice1 (nearestIndex pos first rest) (first :: rest))
                  (route ++ [nextStop])) as (r & Hr & Hperm); [lia|].
      exists r. split; [exact Hr|].
      rewrite Hperm, <- (assoc_L (++)). cbn [app].
      now rewrite <- (splice1_Permutation _ _ _ Hnext).
Qed.

Lemma optimizeRoute_returns start stops :
  is_Some (optimizeRoute start stops).
Proof.
  unfold optimizeRoute. case_decide; [done|].
  destruct (while_loop_Permutation (length stops) start stops [])
    as (route & -> & _); [lia|done].
Qed.

End Sequencer.

(** ** The built-in operations on sample values *)

Section BuiltIns.

Import JS.

Example split_examples :
  split " " "09:00 AM" = ("09:00", ["AM"])
  /\ split ":" "09:00" = ("09", ["00"])
  /\ split " " "soon" = ("soon", [])
  /\ split " " " 11:30 AM" = ("", ["11:30"; "AM"]).
Proof. by repeat split. Qed.

Example Number_examples :
  [Number "09"; Number "30"; Number ""; Number " 12 "; Number "0x1F";
   Number "1e3"; Number ".5"; Number "-2.5e1"]
  = [9; 30; 0; 12; 31; 1000; 0.5; -25].
Proof. vm_compute. reflexivity. Qed.

Example Number_not_numeric :
  is_nan <$> (Number <$> ["~10"; "soon"; "12px"; "1_0"; "."; "0x"; "1 2"])
  = [true; true; true; true; true; true; true].
Proof. vm_compute. reflexivity. Qed.

Example floor_and_rem_examples :
  [floor 2.5; floor (-2.5); floor (-8.75); rem 150 60; rem (-525) 60; rem 5.5 2]
  = [2; -3; -9; 30; -45; 1.5].
Proof. vm_compute. reflexivity. Qed.

Example toString_examples :
  toString <$> [0; -0; 150; -45; 0.5; 30.5; 1e21; 0x1p-20; 4503599627370497;
                9007199254740992; nan; infinity]
  = ["0"; "0"; "150"; "-45"; "0.5"; "30.5"; "1e+21"; "9.5367431640625e-7";
     "4503599627370497"; "9007199254740992"; "NaN"; "Infinity"].
Proof. vm_compute. reflexivity. Qed.

End BuiltIns.

(** ** Claims on the sequencer *)

Section SequencerClaims.

Import Optimizer Sample.

(** The loop is the selection rule of the specification, except that the
    head of the pool enters with its plain distance. *)
Lemma for_loop_first_minimum pos rest i minDistance n :
  snd (for_loop pos rest i minDistance n)
  = SequencerSpec.first_minimum pos rest i minDistance n.
Proof.
  revert i minDistance n.
  induction rest as [|stop rest IH]; intros i m n; [done|].
  cbn [for_loop SequencerSpec.first_minimum].
  unfold SequencerSpec.weighted_distance. by destruct (_ <? _).
Qed.

(** The two agree when the head of the pool has priority [low], whose
    weight is [1.0]. *)
Lemma nearestIndex_low_head pos first rest :
  priority first = low ->
  SequencerSpec.select pos (first :: rest) = Some (nearestIndex pos first rest).
Proof.
  intros Hlow. unfold nearestIndex. rewrite for_loop_first_minimum.
  cbn [SequencerSpec.select]. unfold SequencerSpec.weighted_distance at 1.
  rewrite Hlow. cbn [priorityWeight]. by rewrite FloatFacts.mul_1_r.
Qed.

(** C1, on the input where the code departs from it: from the origin, a
    high-priority stop [A] at distance 4 heads the pool and a low-priority
    stop [B] at distance 3 follows. The weighted distances are 2.8 for [A]
    and 3 for [B], so the rule of the specification selects [A] (index 0).
    The loop compares [B]'s weighted distance with the plain distance 4 of
    [A], selects [B] (index 1), and the route starts with [B]. *)
Theorem optimizeRoute_first_in_pool_unweighted :
  let A := stopAt "A" high 0 4 in
  let B := stopAt "B" low 0 3 in
  (SequencerSpec.weighted_distance origin A
     <? SequencerSpec.weighted_distance origin B) = true
  /\ SequencerSpec.select origin [A; B] = Some 0%nat
  /\ nearestIndex origin A [B] = 1%nat
  /\ optimizeRoute origin [A; B] = Some [B; A].
Proof. vm_compute. repeat split; reflexivity. Qed.

(** C2: [optimizeRoute] returns, and what it returns is a permutation of its
    input: same stops, same length, same multiset of identities. On the
    empty list it returns the empty list. *)
Theorem optimizeRoute_Permutation (start : Coordinate) (stops : list DeliveryStop) :
  (exists route,
      optimizeRoute start stops = Some route
      /\ route ≡ₚ stops
      /\ length route = length stops
      /\ id <$> route ≡ₚ id <$> stops)
  /\ optimizeRoute start [] = Some [].
Proof.
  split; [|reflexivity].
  unfold optimizeRoute. case_decide as Hlen.
  - apply length_zero_iff_nil in Hlen as ->. exists []. by repeat split.
  - destruct (while_loop_Permutation (length stops) start stops [])
      as (route & Hroute & Hperm); [lia|].
    cbn [app] in Hperm. exists route. repeat split; [done..| |].
    + by rewrite Hperm.
    + by rewrite Hperm.
Qed.

End SequencerClaims.

Section DistanceOrder.

Import Optimizer FloatFacts Sample.

(** One iteration of the [while] loop, once the selected index is known. *)
Lemma while_loop_step fuel pos first rest route i nextStop :
  nearestIndex pos first rest = i ->
  (first :: rest) !! i = Some nextStop ->
  while_loop (S fuel) pos (first :: rest) route
  = while_loop fuel (coords nextStop) (splice1 i (first :: rest)) (route ++ [nextStop]).
Proof. intros Hi Hnext. cbn [while_loop]. by rewrite Hi, Hnext. Qed.

(** On stops of priority [low] the weight is [1.0] and the loop compares
    plain distances. *)
Lemma for_loop_low pos stop rest i minDistance n :
  priority stop = low ->
  for_loop pos (stop :: rest) i minDistance n
  = if calculateDistance pos (coords stop) <? minDistance
    then for_loop pos rest (S i) (calculateDistance pos (coords stop)) i
    else for_loop pos rest (S i) minDistance n.
Proof. intros Hlow. cbn [for_loop]. rewrite Hlow. cbn [priorityWeight]. by rewrite mul_1_r. Qed.

(** C9, as the code has it: three stops of priority [low] at strictly
    increasing distance from the origin, the second of which is also
    strictly nearer to the first than the third is, are output in order of
    increasing distance from the origin, in whatever order the input lists
    them. *)
Theorem optimizeRoute_low_priority_distance_order
    (start : Coordinate) (a b c : DeliveryStop) (input : list DeliveryStop) :
  priority a = low -> priority b = low -> priority c = low ->
  (calculateDistance start (coords a) <? calculateDistance start (coords b)) = true ->
  (calculateDistance start (coords b) <? calculateDistance start (coords c)) = true ->
  (calculateDistance (coords a) (coords b)
     <? calculateDistance (coords a) (coords c)) = true ->
  input ≡ₚ [a; b; c] ->
  optimizeRoute start input = Some [a; b; c].
Proof.
  intros Ha Hb Hc Hab Hbc Hnear Hperm.
  pose proof (ltb_trans _ _ _ Hab Hbc) as Hac.
  pose proof (ltb_asym _ _ Hab) as Hba.
  pose proof (ltb_asym _ _ Hbc) as Hcb.
  pose proof (ltb_asym _ _ Hac) as Hca.
  pose proof (ltb_asym _ _ Hnear) as Hfar.
  symmetry in Hperm. apply permutations_Permutation in Hperm.
  cbn in Hperm.
  assert (Hstep : forall fuel pos first rest route i nextStop,
             snd (for_loop pos rest 1 (calculateDistance pos (coords first)) 0) = i ->
             (first :: rest) !! i = Some nextStop ->
             while_loop (S fuel) pos (first :: rest) route
             = while_loop fuel (coords nextStop) (splice1 i (first :: rest))
                          (route ++ [nextStop]))
    by (intros; by apply while_loop_step).
  repeat (apply elem_of_cons in Hperm as [->|Hperm]);
    [..|by apply elem_of_nil in Hperm];
    unfold optimizeRoute; cbn [length];
    (case_decide; [discriminate|]);
    repeat (erewrite Hstep;
            [|rewrite ?for_loop_low by assumption;
              rewrite ?Hab, ?Hbc, ?Hac, ?Hba, ?Hcb, ?Hca, ?Hnear, ?Hfar;
              cbn [for_loop snd]; reflexivity
             |reflexivity];
            cbn [splice1 take drop app]);
    reflexivity.
Qed.

Lemma optimizeRoute_low_priority_distance_order_witness :
  optimizeRoute origin
    [stopAt "c" low 0 3; stopAt "a" low 0 1; stopAt "b" low 0 2]
  = Some [stopAt "a" low 0 1; stopAt "b" low 0 2; stopAt "c" low 0 3].
Proof.
  apply (optimizeRoute_low_priority_distance_order origin
           (stopAt "a" low 0 1) (stopAt "b" low 0 2) (stopAt "c" low 0 3));
    try reflexivity.
  apply (Permutation_cons_app [stopAt "a" low 0 1; stopAt "b" low 0 2] []).
  reflexivity.
Defined.

(** The claim C9 as the specification words it fails on stops that do not
    lie on one side of the origin: [a], [b] and [c] have priority [low] and
    are at distances 1, 2 and 3 from the origin, but from [a] the stop [c]
    (at 2) is nearer than [b] (at 3). *)
Lemma optimizeRoute_distance_order_counterexample :
  let a := stopAt "a" low 0 1 in
  let b := stopAt "b" low 0 (-2) in
  let c := stopAt "c" low 0 3 in
  priority a = priority b /\ priority b = priority c
  /\ (calculateDistance origin (coords a) <? calculateDistance origin (coords b)) = true
  /\ (calculateDistance origin (coords b) <? calculateDistance origin (coords c)) = true
  /\ optimizeRoute origin [a; b; c] = Some [a; c; b]
  /\ optimizeRoute origin [a; b; c] <> Some [a; b; c].
Proof.
  cbv zeta. repeat split; try (vm_compute; reflexivity).
  intros H. apply (f_equal (λ r, id <$> default [] r)) in H.
  vm_compute in H. discriminate H.
Qed.

(** Stops of one priority other than [low] need not even lead with the
    nearest: the head of the pool competes with its plain distance against
    the weighted distances of the others. *)
Example optimizeRoute_high_priority_on_a_ray :
  optimizeRoute origin
    [stopAt "a" high 0 5; stopAt "b" high 0 6; stopAt "c" high 0 20]
  = Some [stopAt "b" high 0 6; stopAt "a" high 0 5; stopAt "c" high 0 20].
Proof. vm_compute. reflexivity. Qed.

End DistanceOrder.

(** ** The caller's array is not written *)

Section CallerArray.

Import Optimizer Sample.

(** The loop on the store computes what the loop on values computes: it
    leaves the route in the array [route] and writes no array other than
    [unvisited] and [route]. *)
Lemma while_loop_store fuel pos (unvisited route : nat) (h : OptimizerRef.store)
    pool acc :
  unvisited ≠ route ->
  h !! unvisited = Some pool ->
  h !! route = Some acc ->
  match while_loop fuel pos pool acc with
  | Some result =>
      exists h', OptimizerRef.while_loop fuel pos unvisited route h = Some h'
                 /\ h' !! route = Some result
                 /\ forall r, r ≠ unvisited -> r ≠ route -> h' !! r = h !! r
  | None => OptimizerRef.while_loop fuel pos unvisited route h = None
  end.
Proof.
  revert pos h pool acc.
  induction fuel as [|fuel IH]; intros pos h pool acc Hne Hpool Hacc.
  - destruct pool as [|first rest]; cbn [while_loop OptimizerRef.while_loop];
      rewrite Hpool; [|done].
    exists h. by repeat split.
  - destruct pool as [|first rest]; cbn [while_loop OptimizerRef.while_loop];
      rewrite Hpool.
    { exists h. by repeat split. }
    destruct ((first :: rest) !! nearestIndex pos first rest)
      as [nextStop|] eqn:Hnext; [|done].
    rewrite lookup_insert_ne by done. rewrite Hacc.
    set (h1 := <[unvisited:=splice1 (nearestIndex pos first rest) (first :: rest)]> h).
    set (h2 := <[route:=acc ++ [nextStop]]> h1).
    specialize (IH (coords nextStop) h2
                  (splice1 (nearestIndex pos first rest) (first :: rest))
                  (acc ++ [nextStop]) Hne).
    assert (Hu : h2 !! unvisited
                 = Some (splice1 (nearestIndex pos first rest) (first :: rest))).
    { unfold h2, h1. rewrite lookup_insert_ne by done. apply lookup_insert_eq. }
    assert (Hr : h2 !! route = Some (acc ++ [nextStop])).
    { unfold h2. apply lookup_insert_eq. }
    specialize (IH Hu Hr).
    destruct (while_loop fuel (coords nextStop) _ _) as [result|]; [|done].
    destruct IH as (h' & Hrun & Hres & Hframe).
    exists h'. repeat split; [done..|].
    intros r Hru Hrr. rewrite Hframe by done.
    unfold h2, h1. by rewrite !lookup_insert_ne.
Qed.

(** C10: [optimizeRoute] on the store returns a new array holding the route
    that [optimizeRoute] on values computes, and every array that existed
    before the call, the caller's [stops] among them, has after the call
    the elements it had before, in the same order. *)
Theorem optimizeRoute_leaves_input (start : Coordinate) (stops : nat)
    (h : OptimizerRef.store) (arr : list DeliveryStop) :
  h !! stops = Some arr ->
  exists result h' route,
    OptimizerRef.optimizeRoute start stops h = Some (result, h')
    /\ optimizeRoute start arr = Some route
    /\ h' !! result = Some route
    /\ h !! result = None
    /\ h' !! stops = Some arr
    /\ forall r, is_Some (h !! r) -> h' !! r = h !! r.
Proof.
  intros Hstops. unfold OptimizerRef.optimizeRoute, optimizeRoute.
  rewrite Hstops. cbn [mbind option_bind].
  pose proof (is_fresh (dom h)) as Hfresh. rewrite not_elem_of_dom in Hfresh.
  assert (Hold : forall r, is_Some (h !! r) -> r ≠ fresh (dom h)).
  { intros r [x Hx] ->. congruence. }
  case_bool_decide as Hlen.
  - rewrite decide_True by done. unfold OptimizerRef.alloc.
    exists (fresh (dom h)), (<[fresh (dom h):=[]]> h), [].
    repeat split; [apply lookup_insert_eq|done| |].
    + rewrite lookup_insert_ne; [done|]. apply not_eq_sym, Hold. by rewrite Hstops.
    + intros r Hr. rewrite lookup_insert_ne; [done|]. by apply not_eq_sym, Hold.
  - rewrite decide_False by done. unfold OptimizerRef.alloc.
    set (u := fresh (dom h)) in *.
    set (h1 := <[u:=arr]> h).
    set (rt := fresh (dom h1)).
    set (h2 := <[rt:=[]]> h1).
    pose proof (is_fresh (dom h1)) as Hfresh1. fold rt in Hfresh1.
    rewrite not_elem_of_dom in Hfresh1.
    assert (Hurt : u ≠ rt).
    { intros Heq. rewrite <- Heq in Hfresh1. unfold h1 in Hfresh1.
      by rewrite lookup_insert_eq in Hfresh1. }
    assert (Hrt : h !! rt = None).
    { unfold h1 in Hfresh1. by rewrite lookup_insert_ne in Hfresh1. }
    destruct (while_loop_Permutation (length arr) start arr [])
      as (route & Hroute & _); [lia|].
    pose proof (while_loop_store (length arr) start u rt h2 arr [] Hurt) as Hrun.
    rewrite Hroute in Hrun.
    destruct Hrun as (h' & Hrun & Hres & Hframe).
    { unfold h2, h1. rewrite lookup_insert_ne by done. apply lookup_insert_eq. }
    { unfold h2. apply lookup_insert_eq. }
    rewrite Hrun. cbn [mbind option_bind].
    assert (Hkeep : forall r, is_Some (h !! r) -> h' !! r = h !! r).
    { intros r Hr. pose proof (Hold r Hr) as Hru.
      assert (r ≠ rt) by (intros ->; rewrite Hrt in Hr; by destruct Hr).
      rewrite Hframe by done. unfold h2, h1. by rewrite !lookup_insert_ne. }
    exists rt, h', route. repeat split; [done..| |done].
    rewrite Hkeep; [done|]. by rewrite Hstops.
Qed.

Lemma optimizeRoute_leaves_input_witness :
  let arr := [stopAt "A" high 0 4; stopAt "B" low 0 3] in
  exists result h' route,
    OptimizerRef.optimizeRoute origin 0 {[ 0%nat := arr ]} = Some (result, h')
    /\ optimizeRoute origin arr = Some route
    /\ h' !! result = Some route
    /\ ({[ 0%nat := arr ]} : OptimizerRef.store) !! result = None
    /\ h' !! 0%nat = Some arr
    /\ forall r, is_Some (({[ 0%nat := arr ]} : OptimizerRef.store) !! r) ->
                 h' !! r = ({[ 0%nat := arr ]} : OptimizerRef.store) !! r.
Proof.
  apply (optimizeRoute_leaves_input origin 0 {[ 0%nat := _ ]}).
  vm_compute. reflexivity.
Defined.

(** The frame property above is owed to the copy: run on the caller's array
    itself, the loop empties it. *)
Example while_loop_on_callers_array :
  let arr := [stopAt "A" high 0 4; stopAt "B" low 0 3] in
  (λ h', (h' !! 0%nat, h' !! 1%nat))
    <$> OptimizerRef.while_loop 2 origin 0 1 {[ 0%nat := arr; 1%nat := [] ]}
  = Some (Some [], Some [stopAt "B" low 0 3; stopAt "A" high 0 4]).
Proof. vm_compute. reflexivity. Qed.

End CallerArray.

(** ** Annotation merge *)

Section AnnotationMerge.

Import App GeminiService Sample.

Lemma withInsight_sameStop etas stop : sameStop stop (withInsight etas stop).
Proof. by repeat split. Qed.

Lemma find_none_iff etas (name : string) :
  List.find (λ e, bool_decide (Eta.id e = name)) etas = None
  <-> name ∉ Eta.id <$> etas.
Proof.
  induction etas as [|e etas IH]; cbn [List.find fmap list_fmap].
  - split; [intros _; apply not_elem_of_nil|done].
  - rewrite not_elem_of_cons. case_bool_decide as He.
    + split; [done|]. intros [Hne _]. by destruct Hne.
    + rewrite IH. split; [by split|by intros [_ ?]].
Qed.

(** C5, as the code has it: a stop whose identity is not in the annotation
    list comes out with both annotation fields absent, whatever they held
    before; a stop whose identity is in the list gets the values of the
    first annotation that carries its identity. *)
Theorem stopsWithInsights_fields (etas : list Eta.t)
    (sequence : list DeliveryStop) (i : nat) (stop : DeliveryStop) :
  sequence !! i = Some stop ->
  exists stop',
    stopsWithInsights etas sequence !! i = Some stop'
    /\ (id stop ∉ Eta.id <$> etas ->
        estimatedTime stop' = None /\ trafficCondition stop' = None)
    /\ (id stop ∈ Eta.id <$> etas ->
        exists e, List.find (λ e, bool_decide (Eta.id e = id stop)) etas = Some e
                  /\ estimatedTime stop' = Some (Eta.eta e)
                  /\ trafficCondition stop' = Some (Eta.traffic e)).
Proof.
  intros Hstop. exists (withInsight etas stop). split.
  - unfold stopsWithInsights. by rewrite list_lookup_fmap, Hstop.
  - unfold withInsight. cbn [estimatedTime trafficCondition]. split.
    + intros Habsent%find_none_iff. by rewrite Habsent.
    + intros Hin.
      destruct (List.find _ etas) as [e|] eqn:Hfind.
      * by exists e.
      * apply find_none_iff in Hfind. by destruct Hfind.
Qed.

Lemma stopsWithInsights_fields_witness :
  let stop := annotated (stopAt "a" low 0 1) "10:15 AM" heavy in
  let etas := [ {| Eta.id := "b"; Eta.eta := "09:45 AM"; Eta.traffic := light |} ] in
  exists stop',
    stopsWithInsights etas [stop] !! 0%nat = Some stop'
    /\ (id stop ∉ Eta.id <$> etas ->
        estimatedTime stop' = None /\ trafficCondition stop' = None)
    /\ (id stop ∈ Eta.id <$> etas ->
        exists e, List.find (λ e, bool_decide (Eta.id e = id stop)) etas = Some e
                  /\ estimatedTime stop' = Some (Eta.eta e)
                  /\ trafficCondition stop' = Some (Eta.traffic e)).
Proof.
  apply (stopsWithInsights_fields
           [ {| Eta.id := "b"; Eta.eta := "09:45 AM"; Eta.traffic := light |} ]
           [annotated (stopAt "a" low 0 1) "10:15 AM" heavy] 0).
  reflexivity.
Defined.

(** The claim C5 as the specification words it fails on a stop that already
    carries annotations and whose identity is not in the list: the merge
    does not leave its fields as they were, it clears them. *)
Lemma stopsWithInsights_clears_unmatched :
  let stop := annotated (stopAt "a" low 0 1) "10:15 AM" heavy in
  let etas := [ {| Eta.id := "b"; Eta.eta := "09:45 AM"; Eta.traffic := light |} ] in
  (id stop ∉ Eta.id <$> etas)
  /\ estimatedTime <$> [stop] = [Some "10:15 AM"]
  /\ trafficCondition <$> [stop] = [Some heavy]
  /\ estimatedTime <$> stopsWithInsights etas [stop] = [None]
  /\ trafficCondition <$> stopsWithInsights etas [stop] = [None]
  /\ estimatedTime <$> stopsWithInsights etas [stop] <> estimatedTime <$> [stop].
Proof.
  cbv zeta. repeat split; [|discriminate].
  apply find_none_iff. reflexivity.
Qed.

(** C6: the merge keeps the length, the order and the identities, and
    every stop differs from the one it replaces at most in the two
    annotation fields. *)
Theorem stopsWithInsights_preserves (etas : list Eta.t)
    (sequence : list DeliveryStop) :
  length (stopsWithInsights etas sequence) = length sequence
  /\ id <$> stopsWithInsights etas sequence = id <$> sequence
  /\ Forall2 sameStop sequence (stopsWithInsights etas sequence).
Proof.
  unfold stopsWithInsights. split; [apply length_fmap|]. split.
  - rewrite <- list_fmap_compose. by apply list_fmap_ext.
  - apply Forall2_fmap_r, Forall_Forall2_diag, Forall_forall.
    intros stop _. apply withInsight_sameStop.
Qed.

End AnnotationMerge.

(** ** Recompute: estimator failure and overlapping invocations *)

Section Recompute.

Import App GeminiService Sample.

(** C3, as the code has it: when the estimator call fails, the stop list
    becomes the sequenced list exactly as it was handed to the estimator,
    every stop with the annotation fields it already had; the summary and
    the time of the last update stay what they were, and the in-progress
    flag is reset. *)
Theorem runOptimization_estimator_failure (now now' : Date)
    (manualStops : option (list DeliveryStop)) (manualDepot : option Coordinate)
    (st st1 st2 : State) (p : Pending) :
  runOptimization_start now manualStops manualDepot st = Awaiting st1 p ->
  let st3 := runOptimization_resume now' p None st2 in
  stops st3 = orderedStops p
  /\ Some (orderedStops p)
     = match manualStops with
       | Some manual => Some manual
       | None => Optimizer.optimizeRoute (default (depotLocation st) manualDepot)
                                         (stops st)
       end
  /\ aiSummary st3 = aiSummary st2
  /\ lastUpdated st3 = lastUpdated st2
  /\ isOptimizing st3 = false.
Proof.
  intros Hstart. cbn. repeat split.
  unfold runOptimization_start in Hstart.
  case_bool_decide; [done|].
  destruct manualStops as [manual|]; cbn in Hstart |- *.
  - by injection Hstart as _ <-.
  - destruct (Optimizer.optimizeRoute _ _) as [ordered|]; [|done].
    by injection Hstart as _ <-.
Qed.

Lemma runOptimization_estimator_failure_witness :
  let stop := annotated (stopAt "a" low 0 1) "10:15 AM" heavy in
  let st := state [stop] (Some "previous summary") in
  let p := {| orderedStops := [stop]; requestLang := en; startTime := "09:00 AM" |} in
  let st3 := runOptimization_resume noon p None st in
  stops st3 = orderedStops p
  /\ Some (orderedStops p) = Optimizer.optimizeRoute (depotLocation st) (stops st)
  /\ aiSummary st3 = aiSummary st
  /\ lastUpdated st3 = lastUpdated st
  /\ isOptimizing st3 = false.
Proof.
  apply (runOptimization_estimator_failure noon noon None None
           (state [annotated (stopAt "a" low 0 1) "10:15 AM" heavy]
                  (Some "previous summary"))
           (setSelectedStopId None
              (setIsOptimizing true
                 (state [annotated (stopAt "a" low 0 1) "10:15 AM" heavy]
                        (Some "previous summary"))))).
  vm_compute. reflexivity.
Defined.

(** The claim C3 as the specification words it fails when the state holds a
    summary and annotated stops of an earlier round: after a failed
    estimator call the summary is still there and the stop still carries
    its estimated time. *)
Lemma runOptimization_failure_keeps_summary :
  let stop := annotated (stopAt "a" low 0 1) "10:15 AM" heavy in
  let st := state [stop] (Some "previous summary") in
  exists st',
    runOptimization noon None None Rejected st = Some st'
    /\ aiSummary st' = Some "previous summary"
    /\ aiSummary st' <> None
    /\ estimatedTime <$> stops st' = [Some "10:15 AM"]
    /\ trafficCondition <$> stops st' = [Some heavy].
Proof.
  cbv zeta. eexists. split; [vm_compute; reflexivity|].
  repeat split. discriminate.
Qed.

(** [optimizeRoute] always returns, so an invocation either returns at once
    or reaches the [await]. *)
Lemma runOptimization_start_never_throws now manualStops manualDepot st :
  runOptimization_start now manualStops manualDepot st <> Threw.
Proof.
  unfold runOptimization_start. case_bool_decide; [done|].
  destruct manualStops as [manual|]; [done|]. cbn [default].
  destruct (optimizeRoute_returns (default (depotLocation st) manualDepot) (stops st))
    as [r Hr].
  by rewrite Hr.
Qed.

(** C4, as the code has it: an invocation carries no generation token, and
    whichever invocation resumes last writes the stop list. When [A]
    resumes after [B], the final stop list is [A]'s; the final summary is
    [A]'s when its estimator call succeeded and the one [B] left
    otherwise. *)
Theorem runOptimization_last_resumed_wins (nowA nowB : Date) (pA pB : Pending)
    (outcomeA outcomeB : option AnalysisResult) (st : State) :
  let afterB := runOptimization_resume nowB pB outcomeB st in
  let final := runOptimization_resume nowA pA outcomeA afterB in
  stops final
  = match outcomeA with
    | Some result => stopsWithInsights (etas result) (orderedStops pA)
    | None => orderedStops pA
    end
  /\ aiSummary final
     = match outcomeA with
       | Some result => Some (summary result)
       | None => aiSummary afterB
       end.
Proof. by destruct outcomeA. Qed.

(** The claim C4 as the specification words it fails on two overlapping
    invocations with hand-made orders, [A] with [s1; s2] and then [B] with
    [s2; s1]: [B]'s estimator call resolves first, [A]'s after it, and the
    state that remains visible is [A]'s. *)
Lemma runOptimization_stale_result_overwrites :
  let s1 := stopAt "s1" low 0 1 in
  let s2 := stopAt "s2" low 0 2 in
  let st := state [s1; s2] None in
  let resultA := {| summary := "A"; etas := [] |} in
  let resultB := {| summary := "B"; etas := [] |} in
  exists stA pA stB pB,
    runOptimization_start noon (Some [s1; s2]) None st = Awaiting stA pA
    /\ runOptimization_start noon (Some [s2; s1]) None stA = Awaiting stB pB
    /\ let afterB := runOptimization_resume noon pB (Some resultB) stB in
       let final := runOptimization_resume noon pA (Some resultA) afterB in
       id <$> stops afterB = ["s2"; "s1"] /\ aiSummary afterB = Some "B"
       /\ id <$> stops final = ["s1"; "s2"] /\ aiSummary final = Some "A"
       /\ stops final <> stops afterB /\ aiSummary final <> aiSummary afterB.
Proof.
  cbv zeta. do 4 eexists.
  split; [vm_compute; reflexivity|]. split; [vm_compute; reflexivity|].
  repeat split; [|discriminate].
  intros H. apply (f_equal (fmap id)) in H. vm_compute in H. discriminate H.
Qed.

End Recompute.

(** ** Route statistics *)

Section RouteStatistics.

Import App GeminiService Sample.

(** C7, as the code has it: on an empty stop list the statistics are
    distance zero and the duration text ["0h 0m"]. *)
Theorem routeStats_empty (now : Date) (st : State) :
  routeStats now (setStops [] st) = {| distance := 0; duration := "0h 0m" |}.
Proof. reflexivity. Qed.

(** The claim C7 as the specification words it fails: the duration of the
    empty sequence is the text ["0h 0m"], not the placeholder ["..."] that
    the function returns when no duration is available. *)
Lemma routeStats_empty_not_unavailable :
  routeStats noon (state [] None) = {| distance := 0; duration := "0h 0m" |}
  /\ duration (routeStats noon (state [] None)) <> "...".
Proof. split; [reflexivity|discriminate]. Qed.

(** The placeholder is what a non-empty sequence without estimated time
    gets. *)
Example routeStats_unavailable :
  duration (routeStats noon (state [stopAt "a" low 0 1] None)) = "...".
Proof. reflexivity. Qed.

(** The example of the specification: start at 09:00 AM, last stop at
    11:30 AM. *)
Example routeStats_two_and_a_half_hours :
  routeStats noon (state [annotated (stopAt "a" low 0 1) "11:30 AM" light] None)
  = {| distance := 111; duration := "2h 30m" |}.
Proof. vm_compute. reflexivity. Qed.

(** C8, on inputs where the code departs from it. When the estimator's
    answer is not JSON, [analyzeRoute] itself supplies the time
    ["~10:00 AM"] for the first stop; [runOptimization] attaches it, and
    the statistics then read ["NaNh NaNm"]. A last stop whose time is
    ["25:99 XM"], no clock time either, yields the numeric duration
    ["17h 39m"]. In neither case is the duration the placeholder ["..."]. *)
Theorem routeStats_unparseable_time :
  (exists st',
      runOptimization noon None None (Text None) (state [stopAt "a" low 0 1] None)
      = Some st'
      /\ estimatedTime <$> stops st' = [Some "~10:00 AM"]
      /\ duration (routeStats noon st') = "NaNh NaNm")
  /\ duration (routeStats noon
                 (state [annotated (stopAt "a" low 0 1) "25:99 XM" light] None))
     = "17h 39m".
Proof.
  split; [|vm_compute; reflexivity].
  eexists. split; [vm_compute; reflexivity|].
  split; vm_compute; reflexivity.
Qed.

End RouteStatistics.

(** * Further properties of the code *)

(** ** Signs, differences and squares of binary64 numbers *)

Module NumberFacts.

Import FloatFacts.

Lemma ltb_irrefl x : (x <? x) = false.
Proof.
  destruct (x <? x) eqn:H; [|done]. by rewrite (ltb_asym _ _ H) in H.
Qed.

Lemma nan_add x : nan + x = nan.
Proof. apply Prim2SF_inj. by rewrite add_spec. Qed.

Lemma nan_sub x : nan - x = nan.
Proof. apply Prim2SF_inj. by rewrite sub_spec. Qed.

(** The sign of a rounded result is the sign it is asked for. *)
Lemma binary_round_aux_abs s mx ex lx :
  SFabs (binary_round_aux prec emax s mx ex lx)
  = SFabs (binary_round_aux prec emax false mx ex lx).
Proof.
  unfold binary_round_aux.
  destruct (shr_fexp prec emax mx ex lx) as [mrs' e'].
  destruct (shr_fexp prec emax _ e' loc_Exact) as [mrs'' e''].
  destruct (shr_m mrs''); [done| |done].
  by destruct (_ <=? _)%Z.
Qed.

Lemma binary_normalize_abs_opp z e :
  SFabs (binary_normalize prec emax (- z) e false)
  = SFabs (binary_normalize prec emax z e false).
Proof.
  destruct z as [|m|m]; [done|..].
  - change (- Z.pos m)%Z with (Z.neg m). cbn [binary_normalize].
    unfold binary_round. destruct (shl_align m e _) as [mz ez].
    apply binary_round_aux_abs.
  - change (- Z.neg m)%Z with (Z.pos m). cbn [binary_normalize].
    unfold binary_round. destruct (shl_align m e _) as [mz ez].
    symmetry. apply binary_round_aux_abs.
Qed.

(** Swapping the operands of a difference changes at most its sign. *)
Lemma SFsub_abs_swap x y :
  SFabs (SF64sub x y) = SFabs (SF64sub y x).
Proof.
  destruct x as [sx|sx| |sx mx ex], y as [sy|sy| |sy my ey];
    try (by destruct sx, sy); try (by destruct sx); try (by destruct sy); try done.
  unfold SF64sub, SFsub. rewrite (Z.min_comm ey ex).
  set (X := cond_Zopp sx _). set (Y := cond_Zopp sy _).
  replace (Y - X)%Z with (- (X - Y))%Z by lia.
  by rewrite binary_normalize_abs_opp.
Qed.

Lemma SFmul_abs x : SF64mul x x = SF64mul (SFabs x) (SFabs x).
Proof. by destruct x as [[]|[]| |[] m e]. Qed.

Lemma square_sub_swap a b : (a - b) * (a - b) = (b - a) * (b - a).
Proof.
  apply Prim2SF_inj. rewrite !mul_spec, !sub_spec.
  rewrite SFmul_abs, (SFmul_abs (SF64sub _ _)).
  by rewrite SFsub_abs_swap.
Qed.

Lemma not_negative_ltb x : not_negative (Prim2SF x) -> (x <? 0) = false.
Proof. rewrite ltb_spec. by destruct (Prim2SF x) as [[]|[]| |[] m e]. Qed.

Lemma binary_round_aux_not_negative mx ex lx :
  not_negative (binary_round_aux prec emax false mx ex lx).
Proof.
  unfold binary_round_aux.
  destruct (shr_fexp prec emax mx ex lx) as [mrs' e'].
  destruct (shr_fexp prec emax _ e' loc_Exact) as [mrs'' e''].
  destruct (shr_m mrs''); [done| |done].
  by destruct (_ <=? _)%Z.
Qed.

Lemma SFadd_not_negative x y :
  not_negative x -> not_negative y -> not_negative (SF64add x y).
Proof.
  destruct x as [sx|[]| |[] mx ex], y as [sy|[]| |[] my ey]; try done.
  - by destruct sx, sy.
  - intros _ _. unfold SF64add, SFadd. cbn [cond_Zopp].
    destruct (shl_align mx ex _) as [ax ?], (shl_align my ey _) as [ay ?].
    cbn [fst]. change (Z.pos ax + Z.pos ay)%Z with (Z.pos (ax + ay)).
    cbn [binary_normalize]. unfold binary_round.
    destruct (shl_align (ax + ay) _ _) as [mz ez].
    apply binary_round_aux_not_negative.
Qed.

Lemma SFmul_not_negative x y :
  not_negative x -> not_negative y -> not_negative (SF64mul x y).
Proof.
  destruct x as [[]|[]| |[] mx ex], y as [[]|[]| |[] my ey]; try done.
  intros _ _. apply binary_round_aux_not_negative.
Qed.

Lemma SFsqrt_not_negative x : not_negative (SF64sqrt x).
Proof.
  destruct x as [[]|[]| |[] m e]; try done.
  unfold SF64sqrt, SFsqrt.
  destruct (SFsqrt_core_binary prec emax (Z.pos m) e) as [[mz ez] lz].
  apply binary_round_aux_not_negative.
Qed.

Lemma is_finite_Prim2SF x :
  is_finite x = true ->
  match Prim2SF x with
  | S754_zero _ | S754_finite _ _ _ => True
  | _ => False
  end.
Proof.
  unfold is_finite, is_nan, is_infinity.
  rewrite !FloatAxioms.eqb_spec, abs_spec.
  change (Prim2SF infinity) with (S754_infinity false).
  by destruct (Prim2SF x) as [[]|[]| |[] m e].
Qed.

Lemma sub_diag x : is_finite x = true -> x - x = 0.
Proof.
  intros Hfin%is_finite_Prim2SF. apply Prim2SF_inj. rewrite sub_spec.
  change (Prim2SF 0) with (S754_zero false).
  destruct (Prim2SF x) as [[]|[]| |s m e]; try done.
  unfold SF64sub, SFsub. rewrite Z.min_id, Z.sub_diag. done.
Qed.

End NumberFacts.

(** ** The distance *)

Section DistanceMetric.

Import Optimizer App NumberFacts Sample.

Lemma calculateDistance_sign p q : not_negative (Prim2SF (calculateDistance p q)).
Proof. unfold calculateDistance. cbv zeta. rewrite sqrt_spec. apply SFsqrt_not_negative. Qed.

(** X1: the distance between two coordinates is the same number in both
    directions, whatever the coordinates hold. *)
Theorem calculateDistance_symmetric (p1 p2 : Coordinate) :
  calculateDistance p1 p2 = calculateDistance p2 p1.
Proof.
  unfold calculateDistance. cbv zeta.
  by rewrite (square_sub_swap (lng p1)), (square_sub_swap (lat p1)).
Qed.

(** X2: a distance is never below zero: the comparison [distance < 0] is
    false for all coordinates (the distance may be [NaN] or [Infinity]). *)
Theorem calculateDistance_not_negative (p1 p2 : Coordinate) :
  (calculateDistance p1 p2 <? 0) = false.
Proof. apply not_negative_ltb, calculateDistance_sign. Qed.

(** X3: the distance from a coordinate with finite latitude and longitude to
    itself is zero. *)
Theorem calculateDistance_self (p : Coordinate) :
  is_finite (lat p) = true -> is_finite (lng p) = true ->
  calculateDistance p p = 0.
Proof.
  intros Hlat Hlng. unfold calculateDistance. cbv zeta.
  rewrite (sub_diag _ Hlat), (sub_diag _ Hlng). reflexivity.
Qed.

Lemma calculateDistance_self_witness :
  calculateDistance {| lat := 34.5; lng := -118.25 |} {| lat := 34.5; lng := -118.25 |} = 0.
Proof. apply calculateDistance_self; reflexivity. Defined.

Lemma totalDistance_sign depot sequence acc :
  not_negative (Prim2SF acc) ->
  not_negative
    (Prim2SF (fst (fold_left
       (λ '(totalDist, current) stop,
          (totalDist + calculateDistance current (coords stop) * 111, coords stop))
       sequence (acc, depot)))).
Proof.
  revert depot acc.
  induction sequence as [|stop sequence IH]; intros depot acc Hacc; [done|].
  cbn [fold_left]. apply IH.
  rewrite add_spec, mul_spec. apply SFadd_not_negative; [done|].
  apply SFmul_not_negative; [apply calculateDistance_sign|done].
Qed.

(** X7: the total distance of the statistics is never below zero, for every
    depot and every list of stops. *)
Theorem routeStats_distance_not_negative (now : Date) (st : State) :
  (distance (routeStats now st) <? 0) = false.
Proof.
  apply not_negative_ltb. unfold routeStats.
  destruct (stops st) as [|first rest] eqn:Hstops; [done|].
  assert (H : not_negative (Prim2SF (totalDistance (depotLocation st) (first :: rest))))
    by (by apply totalDistance_sign).
  by destruct (estimatedTime _) as [[|c t]|].
Qed.

End DistanceMetric.

(** ** The selection of the sequencer *)

Section Selection.

Import Optimizer FloatFacts NumberFacts Sample.

Implicit Types (pos start : Coordinate) (stop first next : DeliveryStop).
Implicit Types (rest pool acc stops route : list DeliveryStop).

Abbreviation weighted := SequencerSpec.weighted_distance.

(** What the [for] loop leaves in [(minDistance, nearestIndex)]. *)
Lemma for_loop_minimal pos rest i m0 n :
  let '(m, k) := for_loop pos rest i m0 n in
  (m = m0 \/ (m <? m0) = true)
  /\ (forall stop, stop ∈ rest -> (weighted pos stop <? m) = false)
  /\ ((m = m0 /\ k = n)
      \/ exists stop, rest !! (k - i)%nat = Some stop /\ (i <= k)%nat
                      /\ m = weighted pos stop).
Proof.
  revert i m0 n. induction rest as [|stop rest IH]; intros i m0 n.
  { cbn. split; [by left|]. split; [|by left].
    intros stop Hin. by apply elem_of_nil in Hin. }
  cbn [for_loop]. fold (weighted pos stop).
  destruct (weighted pos stop <? m0) eqn:Hlt.
  - specialize (IH (S i) (weighted pos stop) i).
    destruct (for_loop pos rest (S i) (weighted pos stop) i) as [m k].
    destruct IH as (Hle & Hall & Hsel).
    assert (Hstop : (weighted pos stop <? m) = false).
    { destruct Hle as [->|Hle]; [apply ltb_irrefl|by apply ltb_asym]. }
    split; [|split].
    + right. destruct Hle as [->|Hle]; [done|]. by apply (ltb_trans _ _ _ Hle).
    + intros s [->|Hin]%elem_of_cons; [done|by apply Hall].
    + right. destruct Hsel as [[-> ->]|(s & Hs & Hik & ->)].
      * exists stop. by rewrite Nat.sub_diag.
      * exists s. replace (k - i)%nat with (S (k - S i)) by lia.
        split; [done|]. split; [lia|done].
  - specialize (IH (S i) m0 n).
    destruct (for_loop pos rest (S i) m0 n) as [m k].
    destruct IH as (Hle & Hall & Hsel).
    split; [done|]. split.
    + intros s [->|Hin]%elem_of_cons; [|by apply Hall].
      destruct Hle as [->|Hle]; [done|].
      destruct (weighted pos stop <? m) eqn:Hw; [|done].
      by rewrite (ltb_trans _ _ _ Hw Hle) in Hlt.
    + destruct Hsel as [[-> ->]|(s & Hs & Hik & ->)]; [by left|right].
      exists s. replace (k - i)%nat with (S (k - S i)) by lia.
      split; [done|]. split; [lia|done].
Qed.

(** X4: in every iteration the selected stop has a least score: the index
    chosen in a pool is in range, and neither the plain distance of the
    head of the pool nor the weighted distance of any other stop is
    strictly below the score of the selected stop. *)
Theorem nearestIndex_minimal (pos : Coordinate) (first : DeliveryStop)
    (rest : list DeliveryStop) :
  exists m,
    selectionScore pos first rest (nearestIndex pos first rest) = Some m
    /\ (calculateDistance pos (coords first) <? m) = false
    /\ forall stop, stop ∈ rest ->
         (SequencerSpec.weighted_distance pos stop <? m) = false.
Proof.
  unfold nearestIndex.
  pose proof (for_loop_minimal pos rest 1 (calculateDistance pos (coords first)) 0) as H.
  destruct (for_loop _ _ _ _ _) as [m k]. destruct H as (Hle & Hall & Hsel).
  exists m. cbn [snd]. split; [|split; [|done]].
  - destruct Hsel as [[-> ->]|(s & Hs & Hik & ->)]; [done|].
    destruct k as [|k]; [lia|]. cbn [selectionScore].
    replace (S k - 1)%nat with k in Hs by lia. by rewrite Hs.
  - destruct Hle as [->|Hle]; [apply ltb_irrefl|by apply ltb_asym].
Qed.

Lemma for_loop_keeps pos rest i m0 n :
  (forall stop, stop ∈ rest -> (weighted pos stop <? m0) = false) ->
  for_loop pos rest i m0 n = (m0, n).
Proof.
  revert i. induction rest as [|stop rest IH]; intros i Hall; [done|].
  cbn [for_loop]. fold (weighted pos stop).
  rewrite (Hall stop) by apply list_elem_of_here.
  apply IH. intros s Hs. apply Hall. by apply list_elem_of_further.
Qed.

Lemma weighted_low pos stop :
  priority stop = low -> weighted pos stop = calculateDistance pos (coords stop).
Proof.
  intros Hlow. unfold weighted. rewrite Hlow. cbn [priorityWeight]. apply mul_1_r.
Qed.

(** In a pool of stops of priority [low], no stop is strictly nearer than
    the selected one. *)
Lemma nearestIndex_low_nearest pos first rest next :
  Forall (λ stop, priority stop = low) (first :: rest) ->
  (first :: rest) !! nearestIndex pos first rest = Some next ->
  forall stop, stop ∈ first :: rest ->
    (weighted pos stop <? calculateDistance pos (coords next)) = false.
Proof.
  intros Hlow Hnext. rewrite Forall_forall in Hlow. unfold nearestIndex in Hnext.
  pose proof (for_loop_minimal pos rest 1 (calculateDistance pos (coords first)) 0) as H.
  destruct (for_loop _ _ _ _ _) as [m k]. destruct H as (Hle & Hall & Hsel).
  cbn [snd] in Hnext.
  assert (Hfirst : (calculateDistance pos (coords first) <? m) = false).
  { destruct Hle as [->|Hle]; [apply ltb_irrefl|by apply ltb_asym]. }
  assert (Hm : m = calculateDistance pos (coords next)).
  { destruct Hsel as [[-> ->]|(s & Hs & Hik & ->)].
    - change ((first :: rest) !! 0%nat) with (Some first) in Hnext.
      by injection Hnext as <-.
    - destruct k as [|k]; [lia|].
      change ((first :: rest) !! S k) with (rest !! k) in Hnext.
      replace (S k - 1)%nat with k in Hs by lia.
      rewrite Hs in Hnext. injection Hnext as <-.
      apply weighted_low, Hlow. apply list_elem_of_further.
      by eapply list_elem_of_lookup_2. }
  subst m. intros stop [->|Hin]%elem_of_cons; [|by apply Hall].
  rewrite weighted_low; [done|]. apply Hlow, list_elem_of_here.
Qed.

Lemma while_loop_low_stable fuel pos pool acc res :
  Forall (λ stop, priority stop = low) pool ->
  while_loop fuel pos pool acc = Some res ->
  exists r, res = acc ++ r /\ r ≡ₚ pool
            /\ forall acc', while_loop (length r) pos r acc' = Some (acc' ++ r).
Proof.
  revert pos pool acc. induction fuel as [|fuel IH]; intros pos pool acc Hlow Hrun.
  - destruct pool as [|first rest]; [|done]. injection Hrun as <-.
    exists []. split; [by rewrite app_nil_r|]. split; [done|].
    intros acc'. by rewrite app_nil_r.
  - destruct pool as [|first rest].
    { injection Hrun as <-. exists []. split; [by rewrite app_nil_r|]. split; [done|].
      intros acc'. by rewrite app_nil_r. }
    cbn [while_loop] in Hrun.
    destruct ((first :: rest) !! nearestIndex pos first rest) as [next|] eqn:Hnext; [|done].
    apply IH in Hrun as (r & -> & Hperm & Hfix).
    2:{ rewrite splice1_delete. by apply Forall_delete. }
    exists (next :: r). split; [by rewrite <- (assoc_L (++))|]. split.
    { rewrite Hperm. symmetry. by apply splice1_Permutation. }
    intros acc'. cbn [length while_loop]. unfold nearestIndex.
    rewrite for_loop_keeps.
    2:{ intros stop Hstop. apply (nearestIndex_low_nearest pos first rest); [done..|].
        rewrite Hperm, splice1_delete in Hstop.
        eapply elem_of_sublist; [done|apply sublist_delete]. }
    cbn [snd lookup list_lookup]. unfold splice1 at 1. cbn [take drop app].
    rewrite drop_0, Hfix. by rewrite <- (assoc_L (++)).
Qed.

(** X6: on stops that all have priority [low], sequencing is stable: the
    route computed from a route of [optimizeRoute], with the same origin, is
    that route again. *)
Theorem optimizeRoute_low_priority_stable (start : Coordinate)
    (stops : list DeliveryStop) :
  Forall (λ stop, priority stop = low) stops ->
  optimizeRoute start stops ≫= optimizeRoute start = optimizeRoute start stops.
Proof.
  intros Hlow.
  destruct (optimizeRoute start stops) as [route|] eqn:Hrun; [|done].
  cbn [mbind option_bind]. unfold optimizeRoute in Hrun.
  case_decide as Hlen; [by injection Hrun as <-|].
  apply while_loop_low_stable in Hrun as (r & -> & Hperm & Hfix); [|done].
  cbn [app]. unfold optimizeRoute.
  rewrite decide_False; [apply (Hfix [])|]. by rewrite Hperm.
Qed.

Lemma optimizeRoute_low_priority_stable_witness :
  optimizeRoute origin [stopAt "c" low 0 3; stopAt "a" low 0 1; stopAt "b" low 0 (-2)]
    ≫= optimizeRoute origin
  = optimizeRoute origin [stopAt "c" low 0 3; stopAt "a" low 0 1; stopAt "b" low 0 (-2)].
Proof.
  apply optimizeRoute_low_priority_stable. repeat constructor.
Defined.

End Selection.

(** ** Sequencing and annotations *)

Section Naturality.

Import Optimizer App GeminiService.

Implicit Types (pos start : Coordinate) (rest pool acc stops : list DeliveryStop).

Variable f : DeliveryStop -> DeliveryStop.
Hypothesis f_coords : forall stop, coords (f stop) = coords stop.
Hypothesis f_priority : forall stop, priority (f stop) = priority stop.

Lemma for_loop_fmap pos rest i m n :
  for_loop pos (f <$> rest) i m n = for_loop pos rest i m n.
Proof using f_coords f_priority.
  revert i m n. induction rest as [|stop rest IH]; intros i m n; [done|].
  cbn [fmap list_fmap for_loop]. rewrite f_coords, f_priority.
  destruct (_ <? _); apply IH.
Qed.

Lemma splice1_fmap i (arr : list DeliveryStop) :
  splice1 i (f <$> arr) = f <$> splice1 i arr.
Proof using Type. unfold splice1. by rewrite fmap_app, fmap_take, fmap_drop. Qed.

Lemma while_loop_fmap fuel pos pool acc :
  while_loop fuel pos (f <$> pool) (f <$> acc)
  = fmap (M:=list) f <$> while_loop fuel pos pool acc.
Proof using f_coords f_priority.
  revert pos pool acc. induction fuel as [|fuel IH]; intros pos pool acc;
    destruct pool as [|first rest]; try done.
  change (f <$> first :: rest) with (f first :: (f <$> rest)).
  cbn [while_loop]. unfold nearestIndex.
  rewrite for_loop_fmap, f_coords.
  change (f first :: (f <$> rest)) with (f <$> first :: rest).
  rewrite list_lookup_fmap.
  destruct ((first :: rest) !! _) as [nextStop|]; [|done].
  cbn [fmap option_fmap option_map]. rewrite f_coords, splice1_fmap.
  rewrite <- IH. by rewrite fmap_app.
Qed.

Lemma optimizeRoute_fmap start stops :
  optimizeRoute start (f <$> stops) = fmap (M:=list) f <$> optimizeRoute start stops.
Proof using f_coords f_priority.
  unfold optimizeRoute. rewrite length_fmap.
  case_decide; [done|]. apply (while_loop_fmap _ _ _ []).
Qed.

Lemma totalDistance_fmap depot sequence :
  totalDistance depot (f <$> sequence) = totalDistance depot sequence.
Proof using f_coords.
  unfold totalDistance. generalize 0. revert depot.
  induction sequence as [|stop sequence IH]; intros depot acc; [done|].
  cbn [fmap list_fmap fold_left]. rewrite f_coords. apply IH.
Qed.

End Naturality.

Section MergeAndSequence.

Import Optimizer App GeminiService.

Implicit Types (etas : list Eta.t) (sequence : list DeliveryStop).

(** X5: the order of a route does not depend on the annotations of the
    stops: sequencing the merged stops gives the merge of the sequenced
    stops. *)
Theorem optimizeRoute_ignores_annotations (start : Coordinate)
    (etas : list Eta.t) (stops : list DeliveryStop) :
  optimizeRoute start (stopsWithInsights etas stops)
  = stopsWithInsights etas <$> optimizeRoute start stops.
Proof. by apply optimizeRoute_fmap. Qed.

(** X8: merging annotations into the stop list leaves the total distance of
    the statistics as it was. *)
Theorem routeStats_distance_ignores_annotations (now : Date) etas (st : State) :
  distance (routeStats now (setStops (stopsWithInsights etas (stops st)) st))
  = distance (routeStats now st).
Proof.
  unfold routeStats. cbn [stops setStops depotLocation].
  destruct (stops st) as [|first rest]; [done|].
  change (stopsWithInsights etas (first :: rest))
    with (withInsight etas first :: stopsWithInsights etas rest).
  cbv zeta.
  transitivity (totalDistance (depotLocation st) (first :: rest)).
  - change (withInsight etas first :: stopsWithInsights etas rest)
      with (withInsight etas <$> first :: rest).
    rewrite <- (totalDistance_fmap (withInsight etas) (λ _, eq_refl)
                  (depotLocation st) (first :: rest)).
    by destruct (estimatedTime _) as [[|c t]|].
  - by destruct (estimatedTime _) as [[|c t]|].
Qed.

(** X9: of two merges in a row only the second counts: merging [etas2]
    after [etas1] gives what merging [etas2] alone gives. In particular a
    merge repeated with the same annotations changes nothing more. *)
Theorem stopsWithInsights_last_wins etas1 etas2 sequence :
  stopsWithInsights etas2 (stopsWithInsights etas1 sequence)
  = stopsWithInsights etas2 sequence.
Proof.
  unfold stopsWithInsights. rewrite <- list_fmap_compose.
  by apply list_fmap_ext.
Qed.

End MergeAndSequence.

(** ** Clock times *)

Section ClockTimes.

Import App Clock NumberFacts Sample.

(** A boolean check that holds on a range of integers holds of each of
    them. *)
Lemma forallb_range (P : Z -> bool) (lo : Z) (n : nat) :
  forallb P ((λ k, (Z.of_nat k + lo)%Z) <$> seq 0 n) = true ->
  forall z, (lo <= z < lo + Z.of_nat n)%Z -> P z = true.
Proof.
  intros H z Hz. rewrite forallb_forall in H. apply H.
  apply list_elem_of_In, list_elem_of_fmap. exists (Z.to_nat (z - lo)).
  split; [lia|]. apply list_elem_of_In, in_seq. lia.
Qed.

(** The text of a negative number is a minus sign and the text of its
    absolute value. *)
Lemma toString_opp x :
  match Prim2SF x with S754_finite false _ _ => True | _ => False end ->
  JS.toString (- x) = String "-" (JS.toString x).
Proof.
  intros Hx. unfold JS.toString.
  replace (abs (- x)) with (abs x)
    by (apply Prim2SF_inj; rewrite !abs_spec, opp_spec;
        by destruct (Prim2SF x) as [[]|[]| |[] m e]).
  rewrite opp_spec.
  destruct (Prim2SF x) as [[]|[]| |[] m e]; try done.
  cbn [SFopp negb]. destruct e as [|p|p];
    by destruct (JS.shortest _ _ _ _ _ _) as [[s k] n].
Qed.

(** The decimal text of the integers from 1 to 59, and of the two zeros. *)
Lemma toString_check :
  forallb (λ z,
      String.eqb (JS.toString (quickNumber z)) (integer z)
      && match Prim2SF (quickNumber z) with
         | S754_finite false _ _ => true
         | _ => false
         end)
    ((λ k, (Z.of_nat k + 1)%Z) <$> seq 0 59) = true
  /\ JS.toString 0 = "0" /\ JS.toString (-0) = "0".
Proof. vm_compute. repeat split; reflexivity. Qed.

(** Every minute of the day, in both ways of writing it. *)
Lemma clock_check :
  forallb (λ h, forallb (λ m,
      let d := {| getHours := Z.to_nat h; getMinutes := Z.to_nat m |} in
      forallb (λ text,
          match text with
          | String _ _ => Leibniz.eqb (parseTime text) (quickNumber (60 * h + m))
          | EmptyString => false
          end) [getCurrentTimeFormatted d; padded d])
      ((λ k, (Z.of_nat k + 0)%Z) <$> seq 0 60))
    ((λ k, (Z.of_nat k + 0)%Z) <$> seq 0 24) = true.
Proof. vm_compute. reflexivity. Qed.

Lemma number_check :
  forallb (λ z, Leibniz.eqb (number z) (quickNumber z))
    ((λ k, (Z.of_nat k + -1439)%Z) <$> seq 0 2879) = true.
Proof. vm_compute. reflexivity. Qed.

Lemma number_quick z : (-1440 < z < 1440)%Z -> number z = quickNumber z.
Proof.
  intros Hz. apply Leibniz.eqb_spec.
  apply (forallb_range _ _ _ number_check). lia.
Qed.

Lemma clock_parse d text :
  valid d ->
  text = getCurrentTimeFormatted d \/ text = padded d ->
  parseTime text = number (minutes d) /\ text <> EmptyString.
Proof.
  destruct d as [h m]. intros [Hh Hm] Htext. cbn in Hh, Hm.
  pose proof (forallb_range _ _ _
                (forallb_range _ _ _ clock_check (Z.of_nat h) ltac:(lia))
                (Z.of_nat m) ltac:(lia)) as H.
  cbv beta zeta in H. rewrite !Nat2Z.id in H.
  unfold minutes. cbn [getHours getMinutes].
  rewrite number_quick by lia.
  cbn [forallb] in H. apply andb_prop in H as [H1 H2].
  apply andb_prop in H2 as [H2 _].
  destruct Htext as [->| ->].
  - destruct (getCurrentTimeFormatted _); [done|].
    by apply Leibniz.eqb_spec in H1.
  - destruct (padded _); [done|].
    by apply Leibniz.eqb_spec in H2.
Qed.

Lemma sub_check :
  let table := (λ k, let z := Z.of_nat k in (z, quickNumber z)) <$> seq 0 1440 in
  forallb (λ '(z1, f1),
      forallb (λ '(z2, f2), Leibniz.eqb (f2 - f1) (quickNumber (z2 - z1))) table)
    table = true.
Proof. vm_compute. reflexivity. Qed.

Lemma number_sub t1 t2 :
  (0 <= t1 < 1440)%Z -> (0 <= t2 < 1440)%Z ->
  number t2 - number t1 = number (t2 - t1).
Proof.
  intros H1 H2. rewrite !number_quick by lia.
  pose proof sub_check as H. cbv zeta in H. rewrite forallb_forall in H.
  assert (Hin : forall t, (0 <= t < 1440)%Z ->
            In (t, quickNumber t)
               ((λ k, let z := Z.of_nat k in (z, quickNumber z)) <$> seq 0 1440)).
  { intros t Ht. apply list_elem_of_In, list_elem_of_fmap. exists (Z.to_nat t).
    cbv zeta. rewrite Z2Nat.id by lia. split; [done|].
    apply list_elem_of_In, in_seq. lia. }
  specialize (H _ (Hin t1 H1)). cbv beta iota in H. rewrite forallb_forall in H.
  specialize (H _ (Hin t2 H2)). cbv beta iota in H.
  by apply Leibniz.eqb_spec.
Qed.

Lemma split_check :
  forallb (λ z,
      let diff := quickNumber z in
      Leibniz.eqb (JS.floor (diff / 60)) (quickNumber (z / 60))
      && (if (Z.rem z 60 =? 0)%Z
          then Leibniz.eqb (JS.rem diff 60) 0 || Leibniz.eqb (JS.rem diff 60) (-0)
          else Leibniz.eqb (JS.rem diff 60) (quickNumber (Z.rem z 60))))
    ((λ k, (Z.of_nat k + -1439)%Z) <$> seq 0 2879) = true.
Proof. vm_compute. reflexivity. Qed.

Lemma toString_quick z :
  (-60 < z < 60)%Z -> JS.toString (quickNumber z) = integer z.
Proof.
  intros Hz.
  assert (Hpos : forall p, (Z.pos p < 60)%Z ->
            JS.toString (quickNumber (Z.pos p)) = integer (Z.pos p)
            /\ match Prim2SF (quickNumber (Z.pos p)) with
               | S754_finite false _ _ => True
               | _ => False
               end).
  { intros p Hp.
    pose proof (forallb_range _ _ _ (proj1 toString_check) (Z.pos p) ltac:(lia)) as H.
    cbv beta in H. apply andb_prop in H as [H1 H2]. apply String.eqb_eq in H1.
    split; [done|]. by destruct (Prim2SF _) as [[]|[]| |[] m e]. }
  destruct z as [|p|p].
  - apply toString_check.
  - apply Hpos. lia.
  - destruct (Hpos p ltac:(lia)) as [Htext Hfin].
    change (quickNumber (Z.neg p)) with (- quickNumber (Z.pos p)).
    rewrite toString_opp, Htext by done. reflexivity.
Qed.

Lemma duration_of_difference z :
  (-1440 < z < 1440)%Z ->
  JS.toString (JS.floor (number z / 60)) +:+ "h "
    +:+ JS.toString (JS.rem (number z) 60) +:+ "m"
  = durationText z.
Proof.
  intros Hz. rewrite number_quick by done.
  pose proof (forallb_range _ _ _ split_check z ltac:(lia)) as H.
  cbv beta zeta in H. apply andb_prop in H as [Hfloor Hrem].
  apply Leibniz.eqb_spec in Hfloor. rewrite Hfloor.
  assert (-60 < z / 60 < 60)%Z by (clear -Hz; Z.div_mod_to_equations; lia).
  assert (-60 < Z.rem z 60 < 60)%Z by (clear -Hz; Z.quot_rem_to_equations; lia).
  rewrite toString_quick by done. unfold durationText. do 3 f_equal.
  destruct (Z.rem z 60 =? 0)%Z eqn:Hzero.
  - apply Z.eqb_eq in Hzero. rewrite Hzero.
    apply orb_prop in Hrem as [Hr|Hr]; apply Leibniz.eqb_spec in Hr; rewrite Hr.
    + reflexivity.
    + apply toString_check.
  - apply Leibniz.eqb_spec in Hrem. rewrite Hrem. by apply toString_quick.
Qed.

Lemma last_snoc_cons {A} (x : A) l y rest :
  l ++ [x] = y :: rest -> List.last rest y = x.
Proof.
  destruct l as [|z l]; intros Heq; injection Heq as <- <-; [done|].
  apply last_last.
Qed.

(** X10: reading back a time that [getCurrentTimeFormatted] wrote gives the
    minutes since midnight of that time, for every hour below 24 and minute
    below 60; so does the same time written with a two-digit hour. *)
Theorem parseTime_getCurrentTimeFormatted (d : Date) :
  valid d ->
  parseTime (getCurrentTimeFormatted d) = number (minutes d)
  /\ parseTime (padded d) = number (minutes d).
Proof.
  intros Hd. split; apply (clock_parse d); auto.
Qed.

Lemma parseTime_getCurrentTimeFormatted_witness :
  let d := {| getHours := 0; getMinutes := 7 |} in
  parseTime (getCurrentTimeFormatted d) = number 7
  /\ parseTime (padded d) = number 7.
Proof.
  apply (parseTime_getCurrentTimeFormatted {| getHours := 0; getMinutes := 7 |}).
  split; cbn; lia.
Defined.

(** X11: when the last stop carries a clock time of the day, the duration
    of the statistics is the difference in minutes between that time and
    the start of the route, as whole hours rounded down and the remaining
    minutes, both negative when the time is before the start. The start is
    the local time when the system clock is used and a recomputation has
    been recorded, and 09:00 otherwise. *)
Theorem routeStats_duration_clock (now eta : Date) (st : State)
    (l : list DeliveryStop) (lastStop : DeliveryStop) (text : string) :
  valid now -> valid eta ->
  text = getCurrentTimeFormatted eta \/ text = padded eta ->
  stops st = l ++ [lastStop] ->
  estimatedTime lastStop = Some text ->
  duration (routeStats now st)
  = durationText
      (minutes eta
       - (if useSystemTime st && bool_decide (is_Some (lastUpdated st))
          then minutes now else 540))%Z.
Proof.
  intros Hnow Heta Htext Hstops Hlast. unfold routeStats.
  destruct (stops st) as [|first rest] eqn:Hst.
  { by destruct l. }
  cbv zeta. rewrite (last_snoc_cons _ _ _ _ (eq_sym Hstops)), Hlast.
  destruct (clock_parse eta text Heta Htext) as [Hparse Hne].
  destruct text as [|c t]; [done|].
  cbn [duration]. rewrite Hparse.
  assert (Hrange : forall d, valid d -> (0 <= minutes d < 1440)%Z).
  { intros [h m] [Hh Hm]. unfold minutes. cbn in *. lia. }
  pose proof (Hrange _ Hnow). pose proof (Hrange _ Heta).
  destruct (useSystemTime st && bool_decide (is_Some (lastUpdated st))).
  - rewrite (proj1 (clock_parse now _ Hnow (or_introl eq_refl))).
    rewrite number_sub by done. apply duration_of_difference. lia.
  - change (parseTime DEFAULT_DEPOT_START_TIME) with (parseTime "09:00 AM").
    replace (parseTime "09:00 AM") with (number 540) by (vm_compute; reflexivity).
    rewrite number_sub by (done || lia). apply duration_of_difference. lia.
Qed.

Lemma routeStats_duration_clock_witness :
  let lastStop := annotated (stopAt "b" low 0 2) "8:40 AM" light in
  duration (routeStats noon (state [stopAt "a" low 0 1; lastStop] None))
  = durationText (520 - 540).
Proof.
  apply (routeStats_duration_clock noon {| getHours := 8; getMinutes := 40 |}
           (state [stopAt "a" low 0 1; annotated (stopAt "b" low 0 2) "8:40 AM" light] None)
           [stopAt "a" low 0 1] (annotated (stopAt "b" low 0 2) "8:40 AM" light)
           "8:40 AM").
  - split; cbn; lia.
  - split; cbn; lia.
  - left. reflexivity.
  - reflexivity.
  - reflexivity.
Defined.

End ClockTimes.

(** ** The estimates made up when the answer cannot be read *)

Section Fallback.

Import App GeminiService NumberFacts Sample.

Implicit Types (stops sequence : list DeliveryStop) (etas : list Eta.t).

(** A time that starts with a tilde is not a number of minutes. *)
Lemma trim_end_tilde s : exists t, JS.trim_end (String "~" s) = String "~" t.
Proof. cbn [JS.trim_end]. destruct (JS.trim_end s); eauto. Qed.

Lemma Number_tilde s : JS.Number (String "~" s) = nan.
Proof.
  unfold JS.Number. cbn [JS.trim_start].
  change (JS.is_whitespace "~") with false. cbv iota.
  destruct (trim_end_tilde s) as [t ->]. reflexivity.
Qed.

Lemma split_cons sep c s :
  c <> sep ->
  exists piece pieces, JS.split sep (String c s) = (String c piece, pieces).
Proof.
  intros Hc. cbn [JS.split]. destruct (JS.split sep s) as [piece pieces].
  rewrite bool_decide_eq_false_2 by done. eauto.
Qed.

Lemma parseTime_tilde s : parseTime (String "~" s) = nan.
Proof.
  unfold parseTime.
  destruct (split_cons " " "~" s) as (time & rest & ->); [done|].
  destruct (split_cons ":" "~" time) as (h & ms & ->); [done|].
  rewrite Number_tilde. cbv zeta.
  change (nan <? 12) with false. change (nan =? 12) with false.
  rewrite !andb_false_r.
  destruct (JS.Number <$> head ms) as [minutes|]; [|done].
  change (nan * 60) with nan. apply nan_add.
Qed.

Lemma duration_tilde now st l lastStop s :
  App.stops st = l ++ [lastStop] ->
  estimatedTime lastStop = Some (String "~" s) ->
  duration (routeStats now st) = "NaNh NaNm".
Proof.
  intros Hstops Hlast. unfold routeStats.
  destruct (App.stops st) as [|first rest] eqn:Hst; [by destruct l|].
  cbv zeta. rewrite (last_snoc_cons _ _ _ _ (eq_sym Hstops)), Hlast.
  cbn [duration]. rewrite parseTime_tilde, nan_sub. reflexivity.
Qed.

Lemma fallbackEta_eta i stop : exists s, Eta.eta (fallbackEta i stop) = String "~" s.
Proof. unfold fallbackEta. cbn [Eta.eta]. eauto. Qed.

Lemma find_fallback stops stop :
  stop ∈ stops ->
  exists e i other,
    List.find (λ e, bool_decide (Eta.id e = id stop)) (imap fallbackEta stops) = Some e
    /\ e = fallbackEta i other.
Proof.
  intros Hin.
  destruct (List.find _ (imap fallbackEta stops)) as [e|] eqn:Hfind.
  - apply find_some in Hfind as [He _].
    apply list_elem_of_In, list_elem_of_lookup in He as [i He].
    rewrite list_lookup_imap in He.
    destruct (stops !! i) as [other|]; [|done]. injection He as <-. eauto.
  - apply list_elem_of_lookup in Hin as [i Hi].
    eapply find_none in Hfind.
    2:{ apply list_elem_of_In, list_elem_of_lookup. exists i.
        by rewrite list_lookup_imap, Hi. }
    cbn in Hfind. by rewrite bool_decide_eq_true_2 in Hfind.
Qed.

(** Merged into the stops they were made up for, the made-up estimates
    leave no stop without a time and a traffic condition. *)
Lemma fallback_merge stops :
  Forall (λ stop, exists s, estimatedTime stop = Some (String "~" s)
                            /\ is_Some (trafficCondition stop))
         (stopsWithInsights (imap fallbackEta stops) stops).
Proof.
  unfold stopsWithInsights. apply Forall_fmap, Forall_forall.
  intros stop Hin. cbn [compose]. unfold withInsight.
  destruct (find_fallback stops stop Hin) as (e & i & other & -> & ->).
  cbn [estimatedTime trafficCondition fmap option_fmap option_map].
  destruct (fallbackEta_eta i other) as [s ->]. eauto.
Qed.

(** X12: when the answer of the model is a text that cannot be read as
    JSON, [analyzeRoute] still returns a result, with one estimate per stop
    in the order of the stops; merged into the stops, it gives every stop,
    also one whose identifier occurs twice, a time that starts with a tilde
    and a traffic condition. *)
Theorem analyzeRoute_fallback_covers (stops : list DeliveryStop) (lang : Language)
    (startTime : string) :
  exists result,
    analyzeRoute stops lang startTime (Text None) = Some result
    /\ Eta.id <$> etas result = id <$> stops
    /\ Forall (λ stop, exists s, estimatedTime stop = Some (String "~" s)
                                 /\ is_Some (trafficCondition stop))
              (stopsWithInsights (etas result) stops).
Proof.
  eexists. split; [reflexivity|]. cbn [etas]. split.
  - rewrite fmap_imap. rewrite <- imap_const. by apply imap_ext.
  - apply fallback_merge.
Qed.

End Fallback.

(** ** A whole recomputation *)

Section RecomputeInvariants.

Import Optimizer App GeminiService Sample.

Implicit Types (st : State) (manualStops : option (list DeliveryStop)).

(** What one whole invocation does, by the emptiness of the stops it is
    run on. *)
Lemma runOptimization_cases now manualStops manualDepot response st :
  let target := default (stops st) manualStops in
  (target = [] /\ runOptimization now manualStops manualDepot response st = Some st)
  \/ (target <> []
      /\ exists ordered st1 p,
           ordered ≡ₚ target
           /\ (forall manual, manualStops = Some manual -> ordered = manual)
           /\ orderedStops p = ordered
           /\ runOptimization now manualStops manualDepot response st
              = Some (runOptimization_resume now p
                        (analyzeRoute ordered (requestLang p) (startTime p) response) st1)).
Proof.
  cbv zeta. unfold runOptimization, runOptimization_start.
  case_bool_decide as Hlen.
  { left. by apply length_zero_iff_nil in Hlen. }
  right. split; [intros Heq; by rewrite Heq in Hlen|].
  destruct manualStops as [manual|]; cbn [default] in *.
  - exists manual. do 2 eexists. split; [done|]. split; [by intros ? [= ->]|].
    split; [|reflexivity]. reflexivity.
  - destruct (optimizeRoute_returns (default (depotLocation st) manualDepot) (stops st))
      as [route Hroute].
    cbn [depotLocation setIsOptimizing setSelectedStopId stops].
    rewrite Hroute.
    exists route. do 2 eexists. split; [|split; [done|split; [|reflexivity]; reflexivity]].
    unfold optimizeRoute in Hroute. case_decide; [done|].
    destruct (while_loop_Permutation (length (stops st))
                (default (depotLocation st) manualDepot) (stops st) [])
      as (r & Hr & Hperm); [lia|].
    rewrite Hr in Hroute. injection Hroute as <-. done.
Qed.

(** X13: after a recomputation whose answer cannot be read as JSON, the
    duration of the statistics is the text [NaNh NaNm], whenever there is a
    stop: the made-up times are not clock times that [parseTime] reads. *)
Theorem runOptimization_fallback_duration now now' manualStops manualDepot st :
  default (stops st) manualStops <> [] ->
  exists st',
    runOptimization now manualStops manualDepot (Text None) st = Some st'
    /\ duration (routeStats now' st') = "NaNh NaNm".
Proof.
  intros Hne.
  destruct (runOptimization_cases now manualStops manualDepot (Text None) st)
    as [[Hempty _]|(_ & ordered & st1 & p & Hperm & _ & Hp & Hrun)]; [done|].
  cbv zeta in *. rewrite Hrun. eexists. split; [reflexivity|].
  pose proof (fallback_merge ordered) as Hall.
  change (analyzeRoute ordered (requestLang p) (startTime p) (Text None))
    with (Some {| summary := defaultSummaries (requestLang p);
                  etas := imap fallbackEta ordered |}).
  assert (Hordered : ordered <> []).
  { intros ->. apply Permutation_nil_l in Hperm. by rewrite <- Hperm in Hne. }
  destruct (exists_last Hordered) as (l & lastStop & ->).
  unfold stopsWithInsights in Hall. rewrite fmap_app in Hall.
  apply Forall_app in Hall as [_ Hlast]. apply Forall_singleton in Hlast as (s & Hs & _).
  eapply (duration_tilde _ _ (withInsight (imap fallbackEta (l ++ [lastStop])) <$> l));
    [|exact Hs].
  cbn. rewrite Hp. unfold stopsWithInsights. by rewrite fmap_app.
Qed.

Lemma runOptimization_fallback_duration_witness :
  exists st',
    runOptimization noon None None (Text None)
      (state [stopAt "a" low 0 1; stopAt "b" high 0 2] None) = Some st'
    /\ duration (routeStats noon st') = "NaNh NaNm".
Proof.
  apply (runOptimization_fallback_duration noon noon None None
           (state [stopAt "a" low 0 1; stopAt "b" high 0 2] None)).
  intros H. apply (f_equal length) in H. vm_compute in H. lia.
Defined.

(** X14: a whole recomputation, whatever the estimator answers, returns;
    with no stop to run on it leaves the state as it is; otherwise the
    stops it leaves are the stops it ran on, each identifier as often as
    before, and the progress flag is off. Run on stops given by the caller,
    it keeps their order and everything but the two annotation fields. *)
Theorem runOptimization_keeps_stops now manualStops manualDepot response st :
  exists st',
    runOptimization now manualStops manualDepot response st = Some st'
    /\ (default (stops st) manualStops = [] -> st' = st)
    /\ (default (stops st) manualStops <> [] ->
        id <$> stops st' ≡ₚ id <$> default (stops st) manualStops
        /\ isOptimizing st' = false)
    /\ (forall manual, manualStops = Some manual -> manual <> [] ->
        Forall2 sameStop manual (stops st')).
Proof.
  destruct (runOptimization_cases now manualStops manualDepot response st)
    as [[Hempty Hrun]|(Hne & ordered & st1 & p & Hperm & Hmanual & Hp & Hrun)];
    cbv zeta in *; rewrite Hrun; eexists; (split; [reflexivity|]).
  - split; [done|]. split; [done|]. intros manual -> Hm. by cbn in Hempty.
  - assert (Hids : forall outcome,
              id <$> stops (runOptimization_resume now p outcome st1) = id <$> ordered).
    { intros [result|]; cbn; rewrite Hp; [|done].
      unfold stopsWithInsights. rewrite <- list_fmap_compose. by apply list_fmap_ext. }
    split; [done|]. split.
    + intros _. split; [rewrite Hids; by apply fmap_Permutation|].
      by destruct (analyzeRoute _ _ _ _).
    + intros manual Hm _. rewrite (Hmanual _ Hm) in *.
      destruct (analyzeRoute _ _ _ _) as [result|]; cbn; rewrite Hp.
      * unfold stopsWithInsights.
        apply Forall2_fmap_r, Forall_Forall2_diag, Forall_forall.
        intros stop _. by repeat split.
      * apply Forall_Forall2_diag, Forall_forall. intros stop _. by repeat split.
Qed.

End RecomputeInvariants.

(** ** The legs of the map *)

Section MapLegs.

Import Optimizer App RouteMap.

Lemma tail_segments first rest :
  mapM (M:=option) Datatypes.id
    (imap (λ i s, segmentTo (coords s) <$> (first :: rest) !! S i)
          (take (length rest) (first :: rest)))
  = Some (chain (coords first) rest).
Proof.
  revert first. induction rest as [|next rest IH]; intros first; [done|].
  cbn [length take]. rewrite imap_cons. cbn [mapM].
  change ((first :: next :: rest) !! 1%nat) with (Some next).
  cbn [fmap option_fmap option_map Datatypes.id mbind option_bind].
  erewrite imap_ext; [rewrite IH|]; done.
Qed.

Lemma labelled_chain from stops acc :
  fold_left (λ acc seg, acc + calculateDist (Segment.start seg) (Segment.end' seg))
            (chain from stops) acc
  = fst (fold_left
           (λ '(totalDist, current) stop,
              (totalDist + calculateDistance current (coords stop) * 111, coords stop))
           stops (acc, from)).
Proof.
  revert from acc. induction stops as [|stop stops IH]; intros from acc; [done|].
  cbn [chain fold_left]. apply IH.
Qed.

Lemma chain_targetId from stops :
  Segment.targetId <$> chain from stops = id <$> stops.
Proof.
  revert from. induction stops as [|stop rest IH]; intros from; [done|].
  cbn [chain]. rewrite !fmap_cons. by rewrite IH.
Qed.

(** X15: building the legs of the map never reads past the end of the
    stops; there is one leg per stop, in the order of the stops, the first
    from the depot and each next one from where the one before ends; and
    the distances written on the legs, added up in that order, are the
    total distance of the statistics, to the last bit. *)
Theorem segments_follow_route (now : Date) (st : State) :
  exists segs,
    segments (depotLocation st) (stops st) = Some segs
    /\ segs = chain (depotLocation st) (stops st)
    /\ Segment.targetId <$> segs = id <$> stops st
    /\ labelled segs = distance (routeStats now st).
Proof.
  assert (Hsegs : segments (depotLocation st) (stops st)
                  = Some (chain (depotLocation st) (stops st))).
  { unfold segments. destruct (stops st) as [|first rest]; [done|].
    replace (length (first :: rest) - 1)%nat with (length rest) by (cbn [length]; lia).
    by rewrite tail_segments. }
  eexists. split; [exact Hsegs|]. split; [done|]. split.
  - apply chain_targetId.
  - unfold labelled. rewrite labelled_chain. unfold routeStats.
    destruct (stops st) as [|first rest]; [done|].
    by destruct (estimatedTime _) as [[|c t]|].
Qed.

End MapLegs.

(** ** Dragging, saving, loading and deleting *)

Section EventHandlers.

Import Optimizer App GeminiService Handlers Sample.

Lemma callRunOptimization_manual now manual manualDepot c :
  manual <> [] ->
  exists p,
    callRunOptimization now (Some manual) manualDepot c
    = Some (withApp (setIsOptimizing true (app c)) c, Some p)
    /\ orderedStops p = manual.
Proof.
  intros Hne. unfold callRunOptimization, runOptimization_start. cbn [default].
  rewrite bool_decide_eq_false_2.
  2:{ intros Hlen. by apply length_zero_iff_nil in Hlen. }
  eexists. split; reflexivity.
Qed.

(** X16: dropping the dragged stop on another position of the list moves
    it there and moves nothing else: the new list holds the same stops, the
    moved stop is at the position of the drop, and without it the others
    are in the order they had. The drag is over, and the recomputation that
    is started runs on the new list as it is. *)
Theorem handleDrop_moves (index dragged : nat) (now : Date) (c : Cells)
    (movedItem : DeliveryStop) :
  draggedIndex c = Some dragged ->
  dragged <> index ->
  stops (app c) !! dragged = Some movedItem ->
  (index < length (stops (app c)))%nat ->
  exists c' p,
    handleDrop index now c = Some (c', Some p)
    /\ orderedStops p = stops (app c')
    /\ draggedIndex c' = None
    /\ stops (app c') ≡ₚ stops (app c)
    /\ stops (app c') !! index = Some movedItem
    /\ splice1 index (stops (app c')) = splice1 dragged (stops (app c)).
Proof.
  intros Hdragged Hne Hmoved Hindex. unfold handleDrop.
  rewrite Hdragged, bool_decide_eq_false_2 by done.
  rewrite Hmoved. cbn [mbind option_bind].
  set (others := splice1 dragged (stops (app c))).
  pose proof (splice1_length dragged (stops (app c)) movedItem Hmoved) as Hlen.
  fold others in Hlen.
  destruct (callRunOptimization_manual now (spliceIn index movedItem others) None
              (setDraggedIndex None
                 (withApp (setStops (spliceIn index movedItem others) (app c)) c)))
    as (p & -> & Hp).
  { unfold spliceIn. by destruct (take index others). }
  do 2 eexists. split; [reflexivity|]. cbn. split; [done|]. split; [done|].
  assert (Htake : length (take index others) = index)
    by (rewrite length_take; apply Nat.min_l; lia).
  split; [|split].
  - unfold spliceIn. rewrite <- Permutation_middle, take_drop.
    symmetry. by apply splice1_Permutation.
  - unfold spliceIn. rewrite lookup_app_r by lia.
    by rewrite Htake, Nat.sub_diag.
  - unfold spliceIn, splice1 at 1.
    rewrite take_app_length' by done.
    rewrite drop_app_ge by lia.
    replace (S index - length (take index others))%nat with 1%nat by lia.
    cbn [drop]. rewrite drop_0. apply take_drop.
Qed.

Lemma handleDrop_moves_witness :
  let a := stopAt "a" low 0 1 in
  let b := stopAt "b" high 0 2 in
  let d := stopAt "d" medium 0 3 in
  let c := {| app := state [a; b; d] None; savedRoutes := [];
              newRouteName := EmptyString; isSaveModalOpen := false;
              activeTab := manifest; draggedIndex := Some 0%nat |} in
  exists c' p,
    handleDrop 2 noon c = Some (c', Some p)
    /\ orderedStops p = stops (app c')
    /\ draggedIndex c' = None
    /\ stops (app c') ≡ₚ stops (app c)
    /\ stops (app c') !! 2%nat = Some a
    /\ splice1 2 (stops (app c')) = splice1 0 (stops (app c)).
Proof.
  apply (handleDrop_moves 2 0 noon
           {| app := state [stopAt "a" low 0 1; stopAt "b" high 0 2;
                            stopAt "d" medium 0 3] None;
              savedRoutes := []; newRouteName := EmptyString;
              isSaveModalOpen := false; activeTab := manifest;
              draggedIndex := Some 0%nat |}).
  - reflexivity.
  - lia.
  - reflexivity.
  - cbn. lia.
Defined.



(** X18: deleting, once confirmed, the route that was just saved gives back
    the saved routes there were before, provided no other saved route has
    the identifier of the new one; this holds also when the save did
    nothing. *)
Theorem save_then_delete (uuid date : string) (now : Date) (c : Cells) :
  Forall (λ r, SavedRoute.id r <> uuid) (savedRoutes c) ->
  savedRoutes (deleteSavedRoute uuid true (handleSaveCurrentRoute uuid date now c))
  = savedRoutes c.
Proof.
  intros Hfresh.
  assert (Hfilter : List.filter (λ r, negb (bool_decide (SavedRoute.id r = uuid)))
                                (savedRoutes c) = savedRoutes c).
  { induction Hfresh as [|r l Hr _ IH]; [done|].
    cbn [List.filter]. rewrite bool_decide_eq_false_2 by done. cbn. by rewrite IH. }
  unfold handleSaveCurrentRoute, deleteSavedRoute.
  destruct (_ || _); cbn; [done|].
  by rewrite bool_decide_eq_true_2.
Qed.

Lemma save_then_delete_witness :
  let older := {| SavedRoute.id := "r0"; SavedRoute.name := "Friday";
                  SavedRoute.stops := [stopAt "b" high 0 2];
                  SavedRoute.date := "10/30/2026"; SavedRoute.totalDistance := 222 |} in
  let c := {| app := state [stopAt "a" low 0 1] None; savedRoutes := [older];
              newRouteName := "Monday"; isSaveModalOpen := true;
              activeTab := routes; draggedIndex := None |} in
  savedRoutes (deleteSavedRoute "r1" true (handleSaveCurrentRoute "r1" "11/2/2026" noon c))
  = savedRoutes c.
Proof.
  apply (save_then_delete "r1" "11/2/2026" noon
           {| app := state [stopAt "a" low 0 1] None;
              savedRoutes := [ {| SavedRoute.id := "r0"; SavedRoute.name := "Friday";
                                  SavedRoute.stops := [stopAt "b" high 0 2];
                                  SavedRoute.date := "10/30/2026";
                                  SavedRoute.totalDistance := 222 |} ];
              newRouteName := "Monday"; isSaveModalOpen := true;
              activeTab := routes; draggedIndex := None |}).
  repeat constructor. cbn. intros H. inversion H.
Defined.

End EventHandlers.
